(** * Label generator: auto-fit text layout ([app.py])

    A shallow embedding of the three helper functions of [app.py]
    ([find_max_font_size_for_multiline], [draw_label], [create_pdf]) and
    of the Python string operations they call, followed by the properties
    of the font-fit solver, the label composer and the batch driver.

    Conventions of the embedding.
    - A Python [str] is a [string]; a character is read as the code point
      of the same number (0..255).
    - Python [int] is [Z].  Python [float] (canvas dimensions, rendered
      widths, coordinates) is read as an exact rational [Q]: the
      development is about the formulas of the layout, not about rounding.
    - [pdfmetrics.stringWidth] is a variable of the development: any total
      function of the text, the font name and the size.
    - The reportlab canvas is the log of the calls made on it.
    - [while True] is unrolled with fuel; running out of fuel is a
      separate outcome, and the termination theorems give the fuel that
      is always enough. *)

From Stdlib Require Import ZArith QArith Qround Bool List String Ascii.
From Stdlib Require Import Lia Lqa Permutation.
Import ListNotations.

Local Open Scope string_scope.
Local Open Scope list_scope.
Local Open Scope Z_scope.

(** ** Python strings *)

Module PyStr.

(** [str.isspace] on one character: TAB..CR, FS..US, space, NEL, NBSP. *)
Definition is_space (c : ascii) : bool :=
  let n := N_of_ascii c in
  ((9 <=? n) && (n <=? 13) || (28 <=? n) && (n <=? 32)
   || (n =? 133) || (n =? 160))%N.

(** [str.lower] on one character: A..Z and the accented capitals
    192..222 (but 215, the multiplication sign) move up by 32. *)
Definition lower_char (c : ascii) : ascii :=
  let n := N_of_ascii c in
  if ((65 <=? n) && (n <=? 90)
      || (192 <=? n) && (n <=? 222) && negb (n =? 215))%N
  then ascii_of_N (n + 32) else c.

Fixpoint lower (s : string) : string :=
  match s with
  | EmptyString => EmptyString
  | String c s' => String (lower_char c) (lower s')
  end.

(** [s.split()]: [word] is the word being scanned, [s] what is left. *)
Fixpoint split_from (word s : string) : list string :=
  match s with
  | EmptyString =>
      match word with EmptyString => [] | _ => [word] end
  | String c s' =>
      if is_space c then
        match word with
        | EmptyString => split_from EmptyString s'
        | _ => word :: split_from EmptyString s'
        end
      else split_from (String.append word (String c EmptyString)) s'
  end.

Definition split (s : string) : list string := split_from EmptyString s.

Fixpoint lstrip (s : string) : string :=
  match s with
  | EmptyString => EmptyString
  | String c s' => if is_space c then lstrip s' else s
  end.

Fixpoint rstrip (s : string) : string :=
  match s with
  | EmptyString => EmptyString
  | String c s' =>
      match rstrip s' with
      | EmptyString => if is_space c then EmptyString else String c EmptyString
      | r => String c r
      end
  end.

(** [s.strip()] *)
Definition strip (s : string) : string := rstrip (lstrip s).

(** truth value of a string: [not text] is [negb (truthy text)] *)
Definition truthy (s : string) : bool :=
  match s with EmptyString => false | _ => true end.

Fixpoint all_space (s : string) : bool :=
  match s with
  | EmptyString => true
  | String c s' => is_space c && all_space s'
  end.

Fixpoint no_space (s : string) : bool :=
  match s with
  | EmptyString => true
  | String c s' => negb (is_space c) && no_space s'
  end.

(** the string is over, or a whitespace character comes next *)
Definition at_boundary (s : string) : bool :=
  match s with
  | EmptyString => true
  | String c _ => is_space c
  end.

(** What [split] is meant to compute: the maximal runs of characters
that are not whitespace, in order.  [words_of s ws]: [s] is a run of
whitespace, then a word that ends at a boundary, then the rest. *)
Inductive words_of : string -> list string -> Prop :=
| words_blank s : all_space s = true -> words_of s []
| words_cons pre w rest ws :
    all_space pre = true -> w <> EmptyString -> no_space w = true ->
    at_boundary rest = true -> words_of rest ws ->
    words_of (String.append pre (String.append w rest)) (w :: ws).

End PyStr.

(** ** Outcomes of a call *)

Inductive exn : Type :=
| ValueError.  (* max() of an empty sequence *)

Inductive outcome (A : Type) : Type :=
| Ok (a : A)
| Raise (e : exn)
| OutOfFuel.

Arguments Ok {A} a.
Arguments Raise {A} e.
Arguments OutOfFuel {A}.

(** ** The canvas: the calls made on it, oldest first *)

Inductive op : Type :=
| SetFont (font_name : string) (font_size : Z)
| DrawString (x y : Q) (text : string)
| ShowPage
| Save.

Definition canvas := list op.

(** A computation on the canvas.  The canvas is mutated in place, so the
    calls made before an exception stay in the log. *)
Definition M (A : Type) : Type := canvas -> canvas * outcome A.

Definition ret {A} (a : A) : M A := fun c => (c, Ok a).

Definition bind {A B} (m : M A) (k : A -> M B) : M B :=
  fun c =>
    match m c with
    | (c', Ok a) => k a c'
    | (c', Raise e) => (c', Raise e)
    | (c', OutOfFuel) => (c', OutOfFuel)
    end.

Definition lift {A} (o : outcome A) : M A := fun c => (c, o).

Definition call (o : op) : M unit := fun c => (c ++ [o], Ok tt).

Declare Scope py_scope.
Delimit Scope py_scope with py.
Notation "x <- m ;; k" := (bind m (fun x => k))
  (at level 61, m at next level, right associativity) : py_scope.
Notation "m ;; k" := (bind m (fun _ => k))
  (at level 61, right associativity) : py_scope.

(** [for a in l: body a] *)
Fixpoint for_each {A} (l : list A) (body : A -> M unit) : M unit :=
  match l with
  | [] => ret tt
  | a :: l' => (body a ;; for_each l' body)%py
  end.

(** [enumerate(l, start)] *)
Fixpoint enumerate {A} (start : Z) (l : list A) : list (Z * A) :=
  match l with
  | [] => []
  | a :: l' => (start, a) :: enumerate (start + 1) l'
  end.

(** ** Numbers *)

Definition len {A} (l : list A) : Z := Z.of_nat (List.length l).

(** [a > b] on floats *)
Definition Qgtb (a b : Q) : bool := negb (Qle_bool a b).

(** [max(xs)] : the first greatest element; an empty sequence raises. *)
Definition py_max (xs : list Q) : outcome Q :=
  match xs with
  | [] => Raise ValueError
  | x :: xs' => Ok (fold_left (fun m y => if Qgtb y m then y else m) xs' x)
  end.

(** ** Constants *)

Definition FONT_ADJUSTMENT : Z := 2.

(** A test font: every character of every font is [size] units wide. *)
Definition mono_width (line font_name : string) (font_size : Z) : Q :=
  inject_Z (Z.of_nat (String.length line) * font_size).

(** A test sheet: a cell holds a text or is null; [str] of a null cell
    is "nan", as for a float NaN, and [pd.notnull] tells them apart. *)
Definition cell_str (val : option string) : string :=
  match val with Some s => s | None => "nan" end.

Definition cell_notnull (val : option string) : bool :=
  match val with Some _ => true | None => false end.

(** the pages of a log: the calls up to each [ShowPage] *)
Fixpoint pages_from (cur : list op) (c : canvas) : list (list op) :=
  match c with
  | [] => []
  | ShowPage :: c' => cur :: pages_from [] c'
  | o :: c' => pages_from (cur ++ [o]) c'
  end.

Definition pages (c : canvas) : list (list op) := pages_from [] c.

(** the texts drawn by a sequence of calls, in order *)
Fixpoint drawn_texts (c : list op) : list string :=
  match c with
  | [] => []
  | DrawString _ _ text :: c' => text :: drawn_texts c'
  | _ :: c' => drawn_texts c'
  end.

(** [list(dict.fromkeys(l))]: the keys of the dict, in insertion order.
    [keys] are the keys inserted so far; inserting a key that is there
    leaves the dict as it is. *)
Fixpoint dict_fromkeys_from (keys l : list string) : list string :=
  match l with
  | [] => keys
  | k :: l' =>
      if existsb (String.eqb k) keys then dict_fromkeys_from keys l'
      else dict_fromkeys_from (keys ++ [k]) l'
  end.

Definition dict_fromkeys (l : list string) : list string :=
  dict_fromkeys_from [] l.

(** what pressing "Generate PDF" gives *)
Inductive generated : Type :=
| Warning (message : string)
| Download (pdf_buffer : canvas).

Section LabelGen.

(** [pdfmetrics.stringWidth(text, fontName, fontSize)] *)
Variable stringWidth : string -> string -> Z -> Q.

(** the values of [data_list] and Python's [str()] on them *)
Variable value : Type.
Variable str : value -> string.

(** *** Font-fit solver *)

Definition max_line_width (lines : list string) (font_name : string)
           (font_size : Z) : outcome Q :=
  py_max (map (fun line => stringWidth line font_name font_size) lines).

Definition total_height (lines : list string) (font_size : Z) : Z :=
  len lines * font_size + (len lines - 1) * 2.

(** the [while True] loop, entered with [font_size] *)
Fixpoint find_loop (fuel : nat) (lines : list string)
         (max_width max_height : Q) (font_name : string) (font_size : Z)
  : outcome Z :=
  match fuel with
  | O => OutOfFuel
  | S fuel' =>
      match max_line_width lines font_name font_size with
      | Ok mlw =>
          if Qgtb mlw (max_width - 4)
             || Qgtb (inject_Z (total_height lines font_size))
                     (max_height - 4)
          then Ok (Z.max (font_size - 1) 1)
          else find_loop fuel' lines max_width max_height font_name
                         (font_size + 1)
      | Raise e => Raise e
      | OutOfFuel => OutOfFuel
      end
  end.

Definition find_max_font_size_for_multiline (fuel : nat)
           (lines : list string) (max_width max_height : Q)
           (font_name : string) : outcome Z :=
  find_loop fuel lines max_width max_height font_name 1.

(** *** Label composer *)

Definition draw_label (fuel : nat) (text font_name : string)
           (width height : Q) (font_override : Z) : M unit :=
  (let lines := PyStr.split text in
   raw_font_size <-
     lift (find_max_font_size_for_multiline fuel lines width height
                                            font_name) ;;
   let font_size :=
     Z.max (raw_font_size - FONT_ADJUSTMENT + font_override) 1 in
   call (SetFont font_name font_size) ;;
   let total_height := len lines * font_size + (len lines - 1) * 2 in
   let start_y := ((height - inject_Z total_height) / 2)%Q in
   for_each (enumerate 0 lines) (fun '(i, line) =>
     let line_width := stringWidth line font_name font_size in
     let x := ((width - line_width) / 2)%Q in
     let y :=
       (start_y + inject_Z ((len lines - i - 1) * (font_size + 2)))%Q in
     call (DrawString x y line)))%py.

(** *** Batch driver *)

(** the guard of the loop body; [true] means [continue] *)
Definition skipped (text : string) : bool :=
  negb (PyStr.truthy text) || String.eqb (PyStr.lower text) "nan".

Definition create_pdf_body (fuel : nat) (data_list : list value)
           (font_name : string) (width height : Q) (font_override : Z)
  : M unit :=
  (for_each data_list (fun value =>
     let text := PyStr.strip (str value) in
     if skipped text then ret tt
     else
       (draw_label fuel text font_name width height font_override ;;
        call ShowPage)) ;;
   call Save)%py.

(** [create_pdf] returns the buffer the canvas wrote to. *)
Definition create_pdf (fuel : nat) (data_list : list value)
           (font_name : string) (width height : Q) (font_override : Z)
  : outcome canvas :=
  match create_pdf_body fuel data_list font_name width height
                        font_override [] with
  | (c, Ok _) => Ok c
  | (_, Raise e) => Raise e
  | (_, OutOfFuel) => OutOfFuel
  end.

(** *** Derived notions used by the statements *)

(** both constraints of the solver hold at [font_size] *)
Definition fits (lines : list string) (max_width max_height : Q)
           (font_name : string) (font_size : Z) : Prop :=
  exists mlw,
    max_line_width lines font_name font_size = Ok mlw
    /\ (mlw <= max_width - 4)%Q
    /\ (inject_Z (total_height lines font_size) <= max_height - 4)%Q.

(** fuel that is enough for any label on a canvas of this height *)
Definition enough_fuel (max_height : Q) : nat :=
  S (Z.to_nat (Qfloor max_height)).

(** the entries of [data_list] that get past the guard of [create_pdf] *)
Definition kept (v : value) : bool := negb (skipped (PyStr.strip (str v))).

(** the calls one label makes on a fresh canvas *)
Definition label_calls (fuel : nat) (text font_name : string)
           (width height : Q) (font_override : Z) : list op :=
  fst (draw_label fuel text font_name width height font_override []).

(** rendered width that does not shrink when the size grows *)
Definition nondecreasing_in_size : Prop :=
  forall line font_name s1 s2,
    1 <= s1 -> s1 <= s2 ->
    (stringWidth line font_name s1 <= stringWidth line font_name s2)%Q.

(** *** The page: from the cells of the sheet to the document *)

(** [pd.notnull] on a cell *)
Variable notnull : value -> bool.

(** a [str] object is a value, and [str()] gives it back *)
Variable of_str : string -> value.
Hypothesis str_of_str : forall s, str (of_str s) = s.

(** [cell_values] as it stands when the button is pressed; [cells] is
    [df[selected_columns].values.flatten()] *)
Definition cell_values (remove_duplicates : bool) (cells : list value)
  : list string :=
  let cell_values :=
    map (fun val => PyStr.strip (str val))
        (filter (fun val =>
                   notnull val
                   && negb (String.eqb (PyStr.strip (str val)) ""))
                cells) in
  if remove_duplicates then dict_fromkeys cell_values else cell_values.

(** the body of [if st.button("Generate PDF")] *)
Definition generate_pdf (fuel : nat) (remove_duplicates : bool)
           (cells : list value) (selected_font : string)
           (page_width page_height : Q) (font_override : Z)
  : outcome generated :=
  match cell_values remove_duplicates cells with
  | [] => Ok (Warning "No valid data found!")
  | cell_values =>
      match create_pdf fuel (map of_str cell_values) selected_font
                       page_width page_height font_override with
      | Ok pdf_buffer => Ok (Download pdf_buffer)
      | Raise e => Raise e
      | OutOfFuel => OutOfFuel
      end
  end.

(** ** Comparisons and [max] *)

Lemma Qgtb_true (a b : Q) : Qgtb a b = true <-> (b < a)%Q.
Proof.
  unfold Qgtb. rewrite negb_true_iff, <- not_true_iff_false, Qle_bool_iff.
  split; [apply Qnot_le_lt | apply Qlt_not_le].
Qed.

Lemma Qgtb_false (a b : Q) : Qgtb a b = false <-> (a <= b)%Q.
Proof.
  unfold Qgtb. rewrite negb_false_iff. apply Qle_bool_iff.
Qed.

Lemma fold_max_spec (xs : list Q) (x : Q) :
  let m := fold_left (fun m y => if Qgtb y m then y else m) xs x in
  (x <= m)%Q /\ (forall y, In y xs -> (y <= m)%Q) /\ (m = x \/ In m xs).
Proof.
  revert x. induction xs as [|y xs IH]; intros x; simpl.
  - split; [apply Qle_refl|]. split; [tauto | now left].
  - destruct (Qgtb y x) eqn:E.
    + destruct (IH y) as (Hy & Hall & Hin).
      apply Qgtb_true in E.
      split; [eapply Qle_trans; [apply Qlt_le_weak, E | exact Hy]|].
      split.
      * intros z [<- | Hz]; auto.
      * destruct Hin as [-> | Hin]; auto.
    + destruct (IH x) as (Hx & Hall & Hin).
      apply Qgtb_false in E.
      split; [exact Hx|]. split.
      * intros z [<- | Hz]; auto. eapply Qle_trans; eauto.
      * destruct Hin as [-> | Hin]; auto.
Qed.

Lemma py_max_ok (xs : list Q) : xs <> [] -> exists m, py_max xs = Ok m.
Proof. destruct xs; [congruence | intros _; simpl; eauto]. Qed.

Lemma py_max_upper (xs : list Q) (m : Q) :
  py_max xs = Ok m -> forall y, In y xs -> (y <= m)%Q.
Proof.
  destruct xs as [|x xs]; simpl; [discriminate|].
  intros [= <-] y Hy.
  destruct (fold_max_spec xs x) as (Hx & Hall & _).
  destruct Hy as [<- | Hy]; auto.
Qed.

Lemma py_max_in (xs : list Q) (m : Q) : py_max xs = Ok m -> In m xs.
Proof.
  destruct xs as [|x xs]; simpl; [discriminate|].
  intros [= <-]. destruct (fold_max_spec xs x) as (_ & _ & [-> | H]); auto.
Qed.

Lemma max_line_width_ok lines font_name font_size :
  lines <> [] -> exists mlw, max_line_width lines font_name font_size = Ok mlw.
Proof.
  intros H. apply py_max_ok. destruct lines; [congruence | discriminate].
Qed.

Lemma max_line_width_empty font_name font_size :
  max_line_width [] font_name font_size = Raise ValueError.
Proof. reflexivity. Qed.

Lemma len_pos {A} (l : list A) : l <> [] -> 1 <= len l.
Proof. destruct l; [congruence|]. unfold len; simpl; lia. Qed.

Lemma total_height_lower lines s :
  lines <> [] -> 1 <= s -> s <= total_height lines s.
Proof.
  intros H Hs. apply len_pos in H. unfold total_height.
  generalize dependent (len lines). intros n Hn.
  assert (1 * s <= n * s) by (apply Z.mul_le_mono_nonneg_r; lia). lia.
Qed.

Lemma total_height_increasing lines s1 s2 :
  lines <> [] -> s1 < s2 -> total_height lines s1 < total_height lines s2.
Proof.
  intros H Hs. apply len_pos in H. unfold total_height.
  generalize dependent (len lines). intros n Hn.
  assert (n * s1 < n * s2) by (apply Z.mul_lt_mono_pos_l; lia). lia.
Qed.

(** ** The solver's loop *)

(** when the loop is entered with a non-empty line set, the test of the
    [if] is the negation of [fits] *)
Lemma overflow_iff lines mw mh font_name s mlw :
  max_line_width lines font_name s = Ok mlw ->
  Qgtb mlw (mw - 4) || Qgtb (inject_Z (total_height lines s)) (mh - 4) = false
  <-> fits lines mw mh font_name s.
Proof.
  intros E. rewrite orb_false_iff, !Qgtb_false. unfold fits. split.
  - intros [? ?]. eauto.
  - intros (m & Em & ? & ?). rewrite E in Em. injection Em as <-. tauto.
Qed.

Lemma too_high lines mw mh font_name s :
  lines <> [] -> 1 <= s -> Qfloor mh - 3 <= s ->
  ~ fits lines mw mh font_name s.
Proof.
  intros Hl Hs Hb (m & _ & _ & Hh).
  pose proof (total_height_lower lines s Hl Hs) as Ht.
  pose proof (Qlt_floor mh) as Hf.
  assert (Hz : (inject_Z (Qfloor mh + 1)
                <= inject_Z (total_height lines s) + inject_Z 4)%Q)
    by (rewrite <- inject_Z_plus, <- Zle_Qle; lia).
  change (inject_Z 4) with 4%Q in Hz.
  lra.
Qed.

Lemma find_loop_spec fuel : forall lines mw mh font_name s,
  lines <> [] -> 1 <= s -> (0 < fuel)%nat ->
  Qfloor mh - 3 <= s + Z.of_nat fuel - 1 ->
  exists k,
    s <= k
    /\ ~ fits lines mw mh font_name k
    /\ (forall j, s <= j < k -> fits lines mw mh font_name j)
    /\ find_loop fuel lines mw mh font_name s = Ok (Z.max (k - 1) 1).
Proof.
  induction fuel as [|fuel IH]; intros lines mw mh font_name s Hl Hs Hf Hb;
    [lia|].
  destruct (max_line_width_ok lines font_name s Hl) as (mlw & E).
  simpl. rewrite E.
  destruct (Qgtb mlw (mw - 4)
            || Qgtb (inject_Z (total_height lines s)) (mh - 4)) eqn:T.
  - exists s. repeat split; [lia | | intros; lia].
    intros F. apply (overflow_iff _ mw mh _ _ _ E) in F. congruence.
  - apply (overflow_iff _ _ _ _ _ _ E) in T.
    assert (Hlt : s < Qfloor mh - 3).
    { destruct (Z_lt_le_dec s (Qfloor mh - 3)) as [?|Hge]; [assumption|].
      exfalso. exact (too_high lines mw mh font_name s Hl Hs Hge T). }
    destruct (IH lines mw mh font_name (s + 1) Hl) as (k & Hk & Hn & Hall & R);
      [lia | lia | lia |].
    exists k. repeat split; [lia | exact Hn | | exact R].
    intros j Hj. destruct (Z.eq_dec j s) as [-> | Hne]; [exact T|].
    apply Hall; lia.
Qed.

Lemma enough_fuel_enough (mh : Q) (fuel : nat) :
  (enough_fuel mh <= fuel)%nat ->
  (0 < fuel)%nat /\ Qfloor mh - 3 <= 1 + Z.of_nat fuel - 1.
Proof. unfold enough_fuel. lia. Qed.

Lemma solver_spec fuel lines mw mh font_name :
  lines <> [] -> (enough_fuel mh <= fuel)%nat ->
  exists k,
    1 <= k
    /\ ~ fits lines mw mh font_name k
    /\ (forall j, 1 <= j < k -> fits lines mw mh font_name j)
    /\ find_max_font_size_for_multiline fuel lines mw mh font_name
       = Ok (Z.max (k - 1) 1).
Proof.
  intros Hl Hf. apply enough_fuel_enough in Hf as [H0 Hb].
  apply find_loop_spec; auto; lia.
Qed.

(** ** Python strings: [split] and [strip] *)

Import PyStr.

Lemma append_nil_r (s : string) : String.append s EmptyString = s.
Proof. induction s; simpl; congruence. Qed.

Lemma append_assoc (a b c : string) :
  String.append (String.append a b) c = String.append a (String.append b c).
Proof. induction a; simpl; congruence. Qed.

Lemma append_nonempty_l (a b : string) :
  a <> EmptyString -> String.append a b <> EmptyString.
Proof. destruct a; simpl; congruence. Qed.

Lemma no_space_append (a b : string) :
  no_space (String.append a b) = no_space a && no_space b.
Proof.
  induction a as [|c a IH]; simpl; [reflexivity|].
  rewrite IH. apply andb_assoc.
Qed.

Lemma split_from_nonempty (s : string) : forall word,
  word <> EmptyString -> split_from word s <> [].
Proof.
  induction s as [|c s IH]; intros word Hw; simpl.
  - destruct word; congruence.
  - destruct (is_space c).
    + destruct word; congruence.
    + apply IH, append_nonempty_l, Hw.
Qed.

Lemma words_of_space (c : ascii) (s : string) (ws : list string) :
  is_space c = true -> words_of s ws -> words_of (String c s) ws.
Proof.
  intros Hc H. destruct H as [s Hs | pre w rest ws Hp Hw Hn Hb Hr].
  - apply words_blank. simpl. now rewrite Hc.
  - change (words_of (String.append (String c pre) (String.append w rest))
                     (w :: ws)).
    apply words_cons; auto. simpl. now rewrite Hc.
Qed.

(** the two states of the scan: between words, and inside [word] *)
Lemma split_from_words (s : string) :
  words_of s (split_from EmptyString s)
  /\ forall word, word <> EmptyString -> no_space word = true ->
       exists u rest ws,
         s = String.append u rest
         /\ no_space u = true /\ at_boundary rest = true
         /\ split_from word s = String.append word u :: ws
         /\ words_of rest ws.
Proof.
  induction s as [|c s [IHb IHw]].
  - split.
    + now apply words_blank.
    + intros word Hw Hn. exists EmptyString, EmptyString, [].
      rewrite (append_nil_r word). repeat split; auto.
      * destruct word; simpl; congruence.
      * now apply words_blank.
  - split.
    + simpl. destruct (is_space c) eqn:Hc.
      * now apply words_of_space.
      * destruct (IHw (String c EmptyString)) as (u & rest & ws & -> & Hu & Hb & E & Hr);
          [discriminate | simpl; now rewrite Hc |].
        rewrite E. simpl.
        change (words_of
                  (String.append EmptyString
                                 (String.append (String c u) rest))
                  (String c u :: ws)).
        apply words_cons; auto; [discriminate|].
        simpl. now rewrite Hc.
    + intros word Hw Hn. simpl. destruct (is_space c) eqn:Hc.
      * exists EmptyString, (String c s), (split_from EmptyString s).
        rewrite (append_nil_r word). repeat split; auto.
        -- destruct word; simpl; congruence.
        -- now apply words_of_space.
      * destruct (IHw (String.append word (String c EmptyString)))
          as (u & rest & ws & -> & Hu & Hb & E & Hr).
        -- now apply append_nonempty_l.
        -- rewrite no_space_append, Hn. simpl. now rewrite Hc.
        -- exists (String c u), rest, ws. repeat split; auto.
           ++ simpl. now rewrite Hc.
           ++ rewrite E, append_assoc. reflexivity.
Qed.

Lemma split_words (s : string) : words_of s (split s).
Proof. apply split_from_words. Qed.

Lemma split_from_space_prefix (pre s : string) :
  all_space pre = true ->
  split_from EmptyString (String.append pre s) = split_from EmptyString s.
Proof.
  induction pre as [|c pre IH]; simpl; [reflexivity|].
  intros H. apply andb_true_iff in H as [Hc Hp]. rewrite Hc. auto.
Qed.

Lemma split_from_word_prefix (w : string) : forall word s,
  no_space w = true ->
  split_from word (String.append w s)
  = split_from (String.append word w) s.
Proof.
  induction w as [|c w IH]; intros word s H; simpl.
  - now rewrite append_nil_r.
  - simpl in H. apply andb_true_iff in H as [Hc Hw].
    apply negb_true_iff in Hc. rewrite Hc, IH by assumption.
    now rewrite append_assoc.
Qed.

Lemma split_from_boundary (word rest : string) :
  word <> EmptyString -> at_boundary rest = true ->
  split_from word rest = word :: split_from EmptyString rest.
Proof.
  intros Hw Hb. destruct rest as [|c rest]; simpl.
  - destruct word; congruence.
  - simpl in Hb. rewrite Hb. destruct word; congruence.
Qed.

(** [words_of] determines the list of words: it is [split] *)
Lemma words_of_split (s : string) (ws : list string) :
  words_of s ws -> split s = ws.
Proof.
  unfold split. induction 1 as [s Hs | pre w rest ws Hp Hw Hn Hb Hr IH].
  - rewrite <- (append_nil_r s), split_from_space_prefix by assumption.
    reflexivity.
  - rewrite split_from_space_prefix, split_from_word_prefix by assumption.
    simpl. rewrite split_from_boundary by assumption. now rewrite IH.
Qed.

Lemma lstrip_head (s : string) :
  lstrip s = EmptyString
  \/ exists c r, lstrip s = String c r /\ is_space c = false.
Proof.
  induction s as [|c s IH]; simpl; [now left|].
  destruct (is_space c) eqn:Hc; [exact IH|]. right; eauto.
Qed.

Lemma rstrip_head (c : ascii) (r : string) :
  is_space c = false -> exists r', rstrip (String c r) = String c r'.
Proof.
  intros Hc. simpl. rewrite Hc. destruct (rstrip r); eauto.
Qed.

Lemma strip_head (s : string) :
  strip s = EmptyString
  \/ exists c r, strip s = String c r /\ is_space c = false.
Proof.
  unfold strip. destruct (lstrip_head s) as [-> | (c & r & -> & Hc)].
  - now left.
  - right. destruct (rstrip_head c r Hc) as (r' & ->). eauto.
Qed.

Lemma rstrip_empty (s : string) :
  rstrip s = EmptyString <-> all_space s = true.
Proof.
  induction s as [|c s IH]; simpl; [tauto|].
  destruct (rstrip s) eqn:E.
  - destruct (is_space c); simpl.
    + split; [intros _; now apply IH | reflexivity].
    + split; discriminate.
  - split; [discriminate|]. intros H.
    apply andb_true_iff in H as [_ H]. apply IH in H. discriminate.
Qed.

Lemma lstrip_all_space (s : string) :
  all_space (lstrip s) = all_space s.
Proof.
  induction s as [|c s IH]; simpl; [reflexivity|].
  destruct (is_space c) eqn:Hc; simpl; [exact IH|]. now rewrite Hc.
Qed.

(** a value is blank when it is empty or all whitespace *)
Lemma strip_empty (s : string) :
  strip s = EmptyString <-> all_space s = true.
Proof.
  unfold strip. now rewrite rstrip_empty, lstrip_all_space.
Qed.

Lemma split_strip_nonempty (s : string) :
  strip s <> EmptyString -> split (strip s) <> [].
Proof.
  intros H. destruct (strip_head s) as [E | (c & r & E & Hc)];
    [congruence|].
  rewrite E. unfold split. simpl. rewrite Hc.
  apply split_from_nonempty. discriminate.
Qed.

(** ** Loops over the canvas *)

Lemma bind_ok {A B} (m : M A) (k : A -> M B) c c' a :
  m c = (c', Ok a) -> bind m k c = k a c'.
Proof. intros E. unfold bind. now rewrite E. Qed.

Lemma bind_congr {A B} (m m' : M A) (k : A -> M B) c :
  m c = m' c -> bind m k c = bind m' k c.
Proof. intros E. unfold bind. now rewrite E. Qed.

Lemma for_each_calls {A} (f : A -> op) (body : A -> M unit) (l : list A) :
  (forall a c, body a c = (c ++ [f a], Ok tt)) ->
  forall c, for_each l body c = (c ++ map f l, Ok tt).
Proof.
  intros Hb. induction l as [|a l IH]; intros c; simpl.
  - unfold ret. now rewrite app_nil_r.
  - unfold bind. rewrite Hb, IH, <- app_assoc. reflexivity.
Qed.



Lemma drawn_texts_enumerate (f : Z -> string -> Q * Q) (l : list string) :
  forall i,
    drawn_texts
      (map (fun '(i, line) => DrawString (fst (f i line)) (snd (f i line)) line)
           (enumerate i l)) = l.
Proof. induction l as [|a l IH]; intros i; simpl; [|rewrite IH]; auto. Qed.

Lemma drawn_texts_app (a b : list op) :
  drawn_texts (a ++ b) = drawn_texts a ++ drawn_texts b.
Proof.
  induction a as [|o a IH]; simpl; [reflexivity|].
  destruct o; simpl; now rewrite IH.
Qed.

(** ** The composer *)

(** the [DrawString] call of line [i] at size [fs] *)
Lemma draw_label_run fuel text font_name w h ov raw c :
  find_max_font_size_for_multiline fuel (split text) w h font_name = Ok raw ->
  let lines := split text in
  let fs := Z.max (raw - FONT_ADJUSTMENT + ov) 1 in
  let start_y := ((h - inject_Z (len lines * fs + (len lines - 1) * 2)) / 2)%Q in
  draw_label fuel text font_name w h ov c
  = (c ++ SetFont font_name fs
       :: map (fun '(i, line) =>
                 DrawString ((w - stringWidth line font_name fs) / 2)%Q
                            (start_y
                             + inject_Z ((len lines - i - 1) * (fs + 2)))%Q
                            line)
              (enumerate 0 lines),
     Ok tt).
Proof.
  intros E lines fs start_y. subst lines.
  unfold draw_label, bind at 1, lift. rewrite E. unfold bind, call.
  erewrite for_each_calls.
  - rewrite <- app_assoc. reflexivity.
  - intros [i line] c'. reflexivity.
Qed.

Lemma draw_label_raise fuel text font_name w h ov e c :
  find_max_font_size_for_multiline fuel (split text) w h font_name = Raise e ->
  draw_label fuel text font_name w h ov c = (c, Raise e).
Proof. intros E. unfold draw_label, bind, lift. now rewrite E. Qed.

Lemma draw_label_out_of_fuel fuel text font_name w h ov c :
  find_max_font_size_for_multiline fuel (split text) w h font_name = OutOfFuel ->
  draw_label fuel text font_name w h ov c = (c, OutOfFuel).
Proof. intros E. unfold draw_label, bind, lift. now rewrite E. Qed.

(** the calls of a label do not depend on what the canvas holds *)
Lemma draw_label_frame fuel text font_name w h ov c :
  draw_label fuel text font_name w h ov c
  = (c ++ label_calls fuel text font_name w h ov,
     snd (draw_label fuel text font_name w h ov [])).
Proof.
  unfold label_calls.
  destruct (find_max_font_size_for_multiline fuel (split text) w h font_name)
    as [raw | e |] eqn:E.
  - rewrite !(draw_label_run _ _ _ _ _ _ _ _ E). reflexivity.
  - rewrite !(draw_label_raise _ _ _ _ _ _ _ _ E). simpl. now rewrite app_nil_r.
  - rewrite !(draw_label_out_of_fuel _ _ _ _ _ _ _ E). simpl.
    now rewrite app_nil_r.
Qed.

Lemma solver_ok fuel lines mw mh font_name :
  lines <> [] -> (enough_fuel mh <= fuel)%nat ->
  exists raw,
    find_max_font_size_for_multiline fuel lines mw mh font_name = Ok raw
    /\ 1 <= raw.
Proof.
  intros Hl Hf.
  destruct (solver_spec fuel lines mw mh font_name Hl Hf) as (k & _ & _ & _ & R).
  eexists. split; [exact R | lia].
Qed.

Lemma label_calls_ok fuel text font_name w h ov :
  split text <> [] -> (enough_fuel h <= fuel)%nat ->
  snd (draw_label fuel text font_name w h ov []) = Ok tt
  /\ drawn_texts (label_calls fuel text font_name w h ov) = split text
  /\ ~ In ShowPage (label_calls fuel text font_name w h ov).
Proof.
  intros Hl Hf.
  destruct (solver_ok fuel _ w h font_name Hl Hf) as (raw & E & _).
  unfold label_calls. rewrite (draw_label_run _ _ _ _ _ _ _ _ E). simpl.
  split; [reflexivity|]. split.
  - apply (drawn_texts_enumerate (fun i line => (_, _))).
  - intros [H | H]; [discriminate|].
    apply in_map_iff in H as ([i line] & H & _). discriminate.
Qed.

(** ** The batch driver *)

Lemma for_each_app {A} (body : A -> M unit) (l1 l2 : list A) : forall c,
  for_each (l1 ++ l2) body c
  = bind (for_each l1 body) (fun _ => for_each l2 body) c.
Proof.
  induction l1 as [|a l1 IH]; intros c; simpl.
  - reflexivity.
  - unfold bind in *. destruct (body a c) as [c' [[] | e |]]; auto.
Qed.

Lemma for_each_skip {A} (body : A -> M unit) (l1 : list A) (v : A)
      (l2 : list A) :
  (forall c, body v c = (c, Ok tt)) ->
  forall c, for_each (l1 ++ v :: l2) body c = for_each (l1 ++ l2) body c.
Proof.
  intros Hv c. rewrite !for_each_app. unfold bind.
  destruct (for_each l1 body c) as [c' [[] | e |]]; auto.
  simpl. unfold bind. now rewrite Hv.
Qed.

Lemma not_skipped_split (text : string) :
  skipped (strip text) = false -> split (strip text) <> [].
Proof.
  unfold skipped. intros H. apply orb_false_iff in H as [H _].
  apply negb_false_iff in H. apply split_strip_nonempty.
  destruct (strip text); [discriminate | congruence].
Qed.

(** the body of the loop of [create_pdf], as [create_pdf_body] has it *)
Lemma create_pdf_loop fuel data_list font_name w h ov :
  (enough_fuel h <= fuel)%nat ->
  forall c,
    for_each data_list (fun value =>
      let text := strip (str value) in
      if skipped text then ret tt
      else
        (draw_label fuel text font_name w h ov ;; call ShowPage)%py) c
    = (c ++ flat_map (fun v => label_calls fuel (strip (str v)) font_name w h ov
                               ++ [ShowPage])
                     (filter kept data_list),
       Ok tt).
Proof.
  intros Hf. induction data_list as [|v l IH]; intros c; simpl.
  - unfold ret. now rewrite app_nil_r.
  - unfold kept at 1. unfold bind at 1.
    destruct (skipped (strip (str v))) eqn:Es; simpl.
    + apply IH.
    + unfold bind at 1. rewrite draw_label_frame.
      destruct (label_calls_ok fuel (strip (str v)) font_name w h ov
                  (not_skipped_split _ Es) Hf) as (-> & _ & _).
      unfold call. rewrite IH, <- !app_assoc. reflexivity.
Qed.

Lemma create_pdf_run fuel data_list font_name w h ov :
  (enough_fuel h <= fuel)%nat ->
  create_pdf fuel data_list font_name w h ov
  = Ok (flat_map (fun v => label_calls fuel (strip (str v)) font_name w h ov
                           ++ [ShowPage])
                 (filter kept data_list) ++ [Save]).
Proof.
  intros Hf. unfold create_pdf, create_pdf_body.
  rewrite (bind_ok _ _ _ _ _ (create_pdf_loop _ _ _ _ _ _ Hf _)).
  reflexivity.
Qed.

Lemma pages_from_page (ops : list op) : forall cur rest,
  ~ In ShowPage ops ->
  pages_from cur (ops ++ ShowPage :: rest) = (cur ++ ops) :: pages_from [] rest.
Proof.
  induction ops as [|o ops IH]; intros cur rest Hn; simpl.
  - now rewrite app_nil_r.
  - assert (Ho : o <> ShowPage) by (intros ->; apply Hn; now left).
    assert (Hn' : ~ In ShowPage ops) by (intros H; apply Hn; now right).
    destruct o; try congruence; rewrite IH, <- app_assoc by assumption;
      reflexivity.
Qed.

Lemma pages_of_labels {A} (g : A -> list op) (l : list A) :
  (forall a, In a l -> ~ In ShowPage (g a)) ->
  pages (flat_map (fun a => g a ++ [ShowPage]) l ++ [Save]) = map g l.
Proof.
  unfold pages. induction l as [|a l IH]; intros Hg; simpl; [reflexivity|].
  rewrite <- !app_assoc. simpl.
  rewrite pages_from_page by (apply Hg; now left).
  simpl. f_equal. apply IH. intros b Hb. apply Hg. now right.
Qed.

Lemma kept_split (v : value) : kept v = true -> split (strip (str v)) <> [].
Proof.
  unfold kept. intros H. apply negb_true_iff in H. now apply not_skipped_split.
Qed.

Lemma create_pdf_pages fuel data_list font_name w h ov :
  (enough_fuel h <= fuel)%nat ->
  exists buf,
    create_pdf fuel data_list font_name w h ov = Ok buf
    /\ map drawn_texts (pages buf)
       = map (fun v => split (strip (str v))) (filter kept data_list).
Proof.
  intros Hf. eexists. split; [apply create_pdf_run, Hf|].
  rewrite pages_of_labels.
  - rewrite map_map. apply map_ext_in. intros v Hv.
    apply filter_In in Hv as [_ Hk].
    apply (label_calls_ok fuel _ font_name w h ov (kept_split v Hk) Hf).
  - intros v Hv. apply filter_In in Hv as [_ Hk].
    apply (label_calls_ok fuel _ font_name w h ov (kept_split v Hk) Hf).
Qed.

Lemma skipped_iff (s : string) :
  skipped (strip s) = true
  <-> all_space s = true \/ lower (strip s) = "nan".
Proof.
  unfold skipped. rewrite orb_true_iff, String.eqb_eq, <- strip_empty.
  destruct (strip s); simpl; intuition congruence.
Qed.

(** a skipped entry leaves no trace, whatever the fuel *)
Lemma create_pdf_skip fuel l1 v l2 font_name w h ov :
  skipped (strip (str v)) = true ->
  create_pdf fuel (l1 ++ v :: l2) font_name w h ov
  = create_pdf fuel (l1 ++ l2) font_name w h ov.
Proof.
  intros Hs. unfold create_pdf, create_pdf_body.
  erewrite (bind_congr _ (for_each (l1 ++ l2) _)); [reflexivity|].
  apply for_each_skip. intros c. cbv beta zeta. now rewrite Hs.
Qed.

(** ** Monotonicity in the font size *)

Lemma max_line_width_mono lines font_name s1 s2 m1 m2 :
  (forall line, In line lines ->
     (stringWidth line font_name s1 <= stringWidth line font_name s2)%Q) ->
  max_line_width lines font_name s1 = Ok m1 ->
  max_line_width lines font_name s2 = Ok m2 ->
  (m1 <= m2)%Q.
Proof.
  unfold max_line_width. intros Hw E1 E2.
  apply py_max_in, in_map_iff in E1 as (line & <- & Hin).
  eapply Qle_trans; [apply Hw, Hin|].
  apply (py_max_upper _ _ E2), in_map_iff. eauto.
Qed.

Lemma total_height_mono lines s1 s2 :
  lines <> [] -> s1 <= s2 -> total_height lines s1 <= total_height lines s2.
Proof.
  intros Hl Hs. destruct (Z.eq_dec s1 s2) as [-> | Hne]; [lia|].
  apply Z.lt_le_incl, total_height_increasing; [assumption | lia].
Qed.

(** with widths that do not shrink, a size that fits makes every smaller
    positive size fit *)
Lemma fits_downward lines mw mh font_name k s :
  nondecreasing_in_size -> lines <> [] -> 1 <= k -> k <= s ->
  fits lines mw mh font_name s -> fits lines mw mh font_name k.
Proof.
  intros Hm Hl Hk Hs (m & E & Hw & Hh).
  destruct (max_line_width_ok lines font_name k Hl) as (mk & Ek).
  exists mk. split; [exact Ek|]. split.
  - eapply Qle_trans; [|exact Hw].
    apply (max_line_width_mono lines font_name k s); auto.
  - eapply Qle_trans; [|exact Hh].
    rewrite <- Zle_Qle. now apply total_height_mono.
Qed.

Lemma find_loop_floor fuel : forall lines mw mh font_name s r,
  find_loop fuel lines mw mh font_name s = Ok r -> 1 <= r.
Proof.
  induction fuel as [|fuel IH]; intros lines mw mh font_name s r; simpl;
    [discriminate|].
  destruct (max_line_width lines font_name s); try discriminate.
  destruct (_ || _); [intros [= <-]; lia | apply IH].
Qed.

(** * The font-fit solver *)

(** C1.  For a non-empty line set and a metrics function whose widths do
    not shrink as the size grows, if size 1 satisfies both constraints
    (greatest line width at most [max_width - 4], block height at most
    [max_height - 4]), [find_max_font_size_for_multiline] returns the
    largest positive size at which both constraints hold. *)
Theorem solver_returns_largest_fit fuel lines mw mh font_name :
  lines <> [] ->
  nondecreasing_in_size ->
  fits lines mw mh font_name 1 ->
  (enough_fuel mh <= fuel)%nat ->
  exists r,
    find_max_font_size_for_multiline fuel lines mw mh font_name = Ok r
    /\ 1 <= r
    /\ fits lines mw mh font_name r
    /\ forall s, fits lines mw mh font_name s -> s <= r.
Proof.
  intros Hl Hm H1 Hf.
  destruct (solver_spec fuel lines mw mh font_name Hl Hf)
    as (k & Hk & Hn & Hall & R).
  assert (Hk2 : 2 <= k).
  { destruct (Z.eq_dec k 1) as [-> | ?]; [contradiction | lia]. }
  exists (k - 1). replace (Z.max (k - 1) 1) with (k - 1) in R by lia.
  split; [exact R|]. split; [lia|]. split; [apply Hall; lia|].
  intros s Hs. destruct (Z_lt_le_dec (k - 1) s) as [Hgt | ?]; [|assumption].
  exfalso. apply Hn.
  apply (fits_downward lines mw mh font_name k s); auto; lia.
Qed.

(** C7.  For a non-empty line set and any canvas, the solver returns a
    size of at least 1; when size 1 already overflows it returns 1. *)
Theorem solver_at_least_one fuel lines mw mh font_name :
  lines <> [] ->
  (enough_fuel mh <= fuel)%nat ->
  (exists r,
     find_max_font_size_for_multiline fuel lines mw mh font_name = Ok r
     /\ 1 <= r
     /\ (~ fits lines mw mh font_name 1 -> r = 1))
  /\ forall fuel' r',
       find_max_font_size_for_multiline fuel' lines mw mh font_name = Ok r' ->
       1 <= r'.
Proof.
  intros Hl Hf. split.
  - destruct (solver_spec fuel lines mw mh font_name Hl Hf)
      as (k & Hk & Hn & Hall & R).
    eexists. split; [exact R|]. split; [lia|].
    intros H1. destruct (Z.eq_dec k 1) as [-> | ?]; [reflexivity|].
    exfalso. apply H1, Hall. lia.
  - intros fuel' r'. apply find_loop_floor.
Qed.

(** C8.  For a non-empty line set the search ends: the block height grows
    strictly with the size, some candidate size overflows, and the loop
    returns there.  [enough_fuel max_height] iterations are enough,
    whatever the widths are. *)
Theorem solver_terminates fuel lines mw mh font_name :
  lines <> [] ->
  (enough_fuel mh <= fuel)%nat ->
  (forall s1 s2, s1 < s2 -> total_height lines s1 < total_height lines s2)
  /\ exists k,
       1 <= k <= Z.max 1 (Qfloor mh - 3)
       /\ ~ fits lines mw mh font_name k
       /\ find_max_font_size_for_multiline fuel lines mw mh font_name
          = Ok (Z.max (k - 1) 1).
Proof.
  intros Hl Hf. split.
  - intros s1 s2. now apply total_height_increasing.
  - destruct (solver_spec fuel lines mw mh font_name Hl Hf)
      as (k & Hk & Hn & Hall & R).
    exists k. repeat split; auto.
    destruct (Z_lt_le_dec (Z.max 1 (Qfloor mh - 3)) k) as [Hgt | ?];
      [|assumption].
    exfalso.
    apply (too_high lines mw mh font_name (Z.max 1 (Qfloor mh - 3)));
      [assumption | lia | lia | apply Hall; lia].
Qed.

(** C9.  For sizes [s1 < s2] and a non-empty line set, if no line is
    rendered narrower at [s2] than at [s1], the greatest line width at
    [s2] is at least that at [s1], and the block height at [s2] is
    strictly greater than at [s1]. *)
Theorem size_monotonicity lines font_name s1 s2 :
  lines <> [] ->
  s1 < s2 ->
  (forall line, In line lines ->
     (stringWidth line font_name s1 <= stringWidth line font_name s2)%Q) ->
  exists m1 m2,
    max_line_width lines font_name s1 = Ok m1
    /\ max_line_width lines font_name s2 = Ok m2
    /\ (m1 <= m2)%Q
    /\ total_height lines s1 < total_height lines s2.
Proof.
  intros Hl Hs Hw.
  destruct (max_line_width_ok lines font_name s1 Hl) as (m1 & E1).
  destruct (max_line_width_ok lines font_name s2 Hl) as (m2 & E2).
  exists m1, m2. repeat split; auto.
  - now apply (max_line_width_mono lines font_name s1 s2).
  - now apply total_height_increasing.
Qed.

(** ** More on [split] and [strip] *)

Lemma split_empty_iff (text : string) :
  split text = [] <-> all_space text = true.
Proof.
  split.
  - intros E. pose proof (split_words text) as H. rewrite E in H.
    now inversion H.
  - intros H. now apply words_of_split, words_blank.
Qed.

Lemma all_space_append (a b : string) :
  all_space (String.append a b) = all_space a && all_space b.
Proof.
  induction a as [|c a IH]; simpl; [reflexivity|].
  rewrite IH. apply andb_assoc.
Qed.

(** nothing but the empty string is a whitespace suffix of [rstrip x] *)
Lemma rstrip_no_trailing (x : string) : forall a b,
  rstrip x = String.append a b -> all_space b = true -> b = EmptyString.
Proof.
  induction x as [|c x IH]; intros a b E Hb; simpl in E.
  - destruct a; simpl in E; [now subst | discriminate].
  - destruct (rstrip x) as [|d r] eqn:Er.
    + destruct (is_space c) eqn:Hc.
      * destruct a; simpl in E; [now subst | discriminate].
      * destruct a as [|c' a]; simpl in E.
        -- subst b. simpl in Hb. rewrite Hc in Hb. discriminate.
        -- injection E as _ E. destruct a; simpl in E; [now subst | discriminate].
    + destruct a as [|c' a]; simpl in E.
      * subst b. simpl in Hb. apply andb_true_iff in Hb as [_ Hb].
        discriminate (IH EmptyString (String d r) eq_refl Hb).
      * injection E as _ E. now apply (IH a b).
Qed.

(** a stripped text that is one word is that word *)
Lemma split_strip_single (s w : string) :
  split (strip s) = [w] -> strip s = w.
Proof.
  intros E. pose proof (split_words (strip s)) as H. rewrite E in H.
  inversion H as [| pre w' rest ws Hp Hw Hn Hb Hr Es]; subst.
  inversion Hr as [rest' Hrest |]; subst.
  assert (rest = EmptyString) as ->.
  { apply (rstrip_no_trailing (lstrip s) (String.append pre w) rest);
      [|assumption].
    rewrite append_assoc. symmetry. exact Es. }
  rewrite append_nil_r in Es |- *.
  destruct pre as [|c pre]; [reflexivity|].
  simpl in Hp. apply andb_true_iff in Hp as [Hc _].
  destruct (strip_head s) as [E0 | (c0 & r0 & E0 & Hc0)];
    rewrite E0 in Es; simpl in Es; [discriminate|].
  injection Es as -> _. congruence.
Qed.

(** * The label composer *)

(** C2.  A request with a non-empty line set is drawn at the size
    [max(raw - 2 + override, 1)], where [raw] is what the solver returns;
    that size is at least 1 for every [raw] and every override. *)
Theorem composer_final_size fuel text font_name w h ov c :
  split text <> [] ->
  (enough_fuel h <= fuel)%nat ->
  exists raw draws,
    find_max_font_size_for_multiline fuel (split text) w h font_name = Ok raw
    /\ draw_label fuel text font_name w h ov c
       = (c ++ SetFont font_name (Z.max (raw - 2 + ov) 1) :: draws, Ok tt)
    /\ 1 <= Z.max (raw - 2 + ov) 1
    /\ forall o, In o draws -> exists x y t, o = DrawString x y t.
Proof.
  intros Hl Hf.
  destruct (solver_ok fuel _ w h font_name Hl Hf) as (raw & E & _).
  exists raw. eexists. split; [exact E|].
  split; [apply (draw_label_run _ _ _ _ _ _ _ _ E)|].
  split; [lia|].
  intros o Ho. apply in_map_iff in Ho as ([i line] & <- & _). eauto.
Qed.



(** C6, as the code has it.  A text has an empty line set exactly when
    it is empty or all whitespace.  On such a text [draw_label] does not
    skip: the [max] of the solver raises [ValueError] before any call is
    made on the canvas.  The guard of [create_pdf] keeps such texts away
    from [draw_label]: a text that is not skipped has a line. *)
Theorem composer_empty_line_set fuel text font_name w h ov c :
  split text = [] ->
  all_space text = true
  /\ draw_label (S fuel) text font_name w h ov c = (c, Raise ValueError)
  /\ forall s, skipped (strip s) = false -> split (strip s) <> [].
Proof.
  intros E. split; [now apply split_empty_iff|]. split.
  - apply draw_label_raise. rewrite E. reflexivity.
  - apply not_skipped_split.
Qed.

(** * The batch driver *)

(** C5.  [create_pdf] returns a document with one page for every entry
    that is not skipped, in the order of the input; the page of an entry
    shows the words of its stripped text.  An entry is skipped exactly
    when its string form is empty or all whitespace, or when its stripped
    form lowers to "nan".  So when no entry is the missing-value token,
    the pages are as many as the entries that are not blank. *)
Theorem driver_one_page_per_kept_entry fuel data_list font_name w h ov :
  (enough_fuel h <= fuel)%nat ->
  exists buf,
    create_pdf fuel data_list font_name w h ov = Ok buf
    /\ map drawn_texts (pages buf)
       = map (fun v => split (strip (str v))) (filter kept data_list)
    /\ List.length (pages buf) = List.length (filter kept data_list)
    /\ (forall v, kept v = false
                  <-> all_space (str v) = true
                      \/ lower (strip (str v)) = "nan")
    /\ ((forall v, In v data_list -> lower (strip (str v)) <> "nan") ->
        List.length (pages buf)
        = List.length (filter (fun v => negb (all_space (str v))) data_list)).
Proof.
  intros Hf.
  destruct (create_pdf_pages fuel data_list font_name w h ov Hf)
    as (buf & E & Hp).
  assert (Hk : forall v, kept v = false
                         <-> all_space (str v) = true
                             \/ lower (strip (str v)) = "nan").
  { intros v. unfold kept. rewrite negb_false_iff. apply skipped_iff. }
  assert (Hlen : List.length (pages buf)
                 = List.length (filter kept data_list)).
  { rewrite <- (length_map drawn_texts), Hp. apply length_map. }
  exists buf. repeat split; try assumption; try apply Hk.
  intros Hnan. rewrite Hlen. f_equal. apply filter_ext_in.
  intros v Hv. specialize (Hnan v Hv). specialize (Hk v).
  destruct (kept v), (all_space (str v)); simpl; try reflexivity; exfalso.
  - destruct Hk as [_ Hk]. discriminate Hk. now left.
  - destruct Hk as [Hk _]. destruct (Hk eq_refl); congruence.
Qed.

(** C10.  An entry whose stripped string form lowers to "nan" is
    skipped: the document is the one obtained without the entry, and the
    one obtained with a blank entry in its place.  No page of a document
    shows a single word that lowers to "nan". *)
Theorem driver_skips_nan fuel l1 v l2 font_name w h ov :
  lower (strip (str v)) = "nan" ->
  create_pdf fuel (l1 ++ v :: l2) font_name w h ov
  = create_pdf fuel (l1 ++ l2) font_name w h ov
  /\ (forall b, all_space (str b) = true ->
        create_pdf fuel (l1 ++ v :: l2) font_name w h ov
        = create_pdf fuel (l1 ++ b :: l2) font_name w h ov)
  /\ ((enough_fuel h <= fuel)%nat ->
      forall data_list, exists buf,
        create_pdf fuel data_list font_name w h ov = Ok buf
        /\ forall page word,
             In page (pages buf) -> drawn_texts page = [word] ->
             lower word <> "nan").
Proof.
  intros Hnan.
  assert (Hv : skipped (strip (str v)) = true)
    by (apply skipped_iff; now right).
  split; [now apply create_pdf_skip|]. split.
  - intros b Hb. rewrite !create_pdf_skip; auto.
    apply skipped_iff. now left.
  - intros Hf data_list.
    destruct (create_pdf_pages fuel data_list font_name w h ov Hf)
      as (buf & E & Hp).
    exists buf. split; [exact E|]. intros page word Hin Hw.
    apply (in_map drawn_texts) in Hin. rewrite Hp, Hw in Hin.
    apply in_map_iff in Hin as (u & Hu & Hin).
    apply filter_In in Hin as [_ Hk].
    apply split_strip_single in Hu. subst word.
    unfold kept, skipped in Hk. apply negb_true_iff, orb_false_iff in Hk.
    destruct Hk as [_ Hk]. now apply String.eqb_neq in Hk.
Qed.

(** * Further properties of the solver *)

(** the first size that overflows on the easier of two problems is no
    smaller than on the harder one *)
Lemma first_overflow_le (fits_hard fits_easy : Z -> Prop) (k_hard k_easy : Z) :
  (forall j, 1 <= j -> fits_hard j -> fits_easy j) ->
  1 <= k_easy -> ~ fits_easy k_easy ->
  (forall j, 1 <= j < k_hard -> fits_hard j) ->
  k_hard <= k_easy.
Proof.
  intros Himp Hk Hne Hh.
  destruct (Z_le_gt_dec k_hard k_easy) as [?|Hgt]; [assumption|].
  exfalso. apply Hne, Himp; [assumption|]. apply Hh. lia.
Qed.

Lemma enough_fuel_mono (mh mh' : Q) :
  (mh <= mh')%Q -> (enough_fuel mh <= enough_fuel mh')%nat.
Proof.
  intros H. apply Qfloor_resp_le in H. unfold enough_fuel. lia.
Qed.

Lemma fits_wider lines mw mh mw' mh' font_name s :
  (mw <= mw')%Q -> (mh <= mh')%Q ->
  fits lines mw mh font_name s -> fits lines mw' mh' font_name s.
Proof.
  intros Hw Hh (m & E & Hm & Ht). exists m. split; [exact E|].
  split; lra.
Qed.

Lemma len_le {A} (l l' : list A) :
  (List.length l <= List.length l')%nat -> len l <= len l'.
Proof. unfold len. lia. Qed.

Lemma total_height_more_lines lines lines' s :
  (List.length lines <= List.length lines')%nat -> 1 <= s ->
  total_height lines s <= total_height lines' s.
Proof.
  intros Hl Hs. apply len_le in Hl. unfold total_height.
  generalize dependent (len lines'). generalize (len lines). intros n n' Hn.
  assert (n * s <= n' * s) by (apply Z.mul_le_mono_nonneg_r; lia). lia.
Qed.

Lemma fits_fewer_lines lines lines' mw mh font_name s :
  lines <> [] -> incl lines lines' ->
  (List.length lines <= List.length lines')%nat -> 1 <= s ->
  fits lines' mw mh font_name s -> fits lines mw mh font_name s.
Proof.
  intros Hne Hin Hl Hs (m' & E' & Hm & Ht).
  destruct (max_line_width_ok lines font_name s Hne) as (m & E).
  exists m. split; [exact E|]. split.
  - eapply Qle_trans; [|exact Hm].
    unfold max_line_width in E, E'.
    apply py_max_in, in_map_iff in E as (line & <- & Hline).
    apply (py_max_upper _ _ E'), in_map_iff. exists line. auto.
  - eapply Qle_trans; [|exact Ht].
    rewrite <- Zle_Qle. now apply total_height_more_lines.
Qed.

(** X1.  Whatever the metrics are, when size 1 fits the solver returns
    the size just below the first one that overflows: every size from 1
    to the result fits and the next size does not. *)
Theorem solver_stops_at_first_overflow fuel lines mw mh font_name :
  lines <> [] ->
  fits lines mw mh font_name 1 ->
  (enough_fuel mh <= fuel)%nat ->
  exists r,
    find_max_font_size_for_multiline fuel lines mw mh font_name = Ok r
    /\ (forall j, 1 <= j <= r -> fits lines mw mh font_name j)
    /\ ~ fits lines mw mh font_name (r + 1).
Proof.
  intros Hl H1 Hf.
  destruct (solver_spec fuel lines mw mh font_name Hl Hf)
    as (k & Hk & Hn & Hall & R).
  assert (Hk2 : 2 <= k).
  { destruct (Z.eq_dec k 1) as [-> | ?]; [contradiction | lia]. }
  exists (k - 1). replace (Z.max (k - 1) 1) with (k - 1) in R by lia.
  split; [exact R|]. split.
  - intros j Hj. apply Hall. lia.
  - now replace (k - 1 + 1) with k by lia.
Qed.

(** X2.  A canvas that is at least as wide and at least as high never
    gets a smaller size. *)
Theorem solver_monotone_in_canvas fuel lines mw mh mw' mh' font_name :
  lines <> [] ->
  (mw <= mw')%Q -> (mh <= mh')%Q ->
  (enough_fuel mh' <= fuel)%nat ->
  exists r r',
    find_max_font_size_for_multiline fuel lines mw mh font_name = Ok r
    /\ find_max_font_size_for_multiline fuel lines mw' mh' font_name = Ok r'
    /\ r <= r'.
Proof.
  intros Hl Hw Hh Hf.
  assert (Hf0 : (enough_fuel mh <= fuel)%nat)
    by (eapply Nat.le_trans; [apply enough_fuel_mono, Hh | exact Hf]).
  destruct (solver_spec fuel lines mw mh font_name Hl Hf0)
    as (k & Hk & Hn & Hall & R).
  destruct (solver_spec fuel lines mw' mh' font_name Hl Hf)
    as (k' & Hk' & Hn' & Hall' & R').
  do 2 eexists. split; [exact R|]. split; [exact R'|].
  assert (k <= k'); [|lia].
  apply (first_overflow_le (fits lines mw mh font_name)
                           (fits lines mw' mh' font_name)); auto.
  intros j _. now apply fits_wider.
Qed.

(** X3.  A line set that holds all the lines of another and is at least
    as long never gets a larger size: adding words to a label cannot
    make its text bigger. *)
Theorem solver_antitone_in_lines fuel lines lines' mw mh font_name :
  lines <> [] ->
  incl lines lines' ->
  (List.length lines <= List.length lines')%nat ->
  (enough_fuel mh <= fuel)%nat ->
  exists r r',
    find_max_font_size_for_multiline fuel lines mw mh font_name = Ok r
    /\ find_max_font_size_for_multiline fuel lines' mw mh font_name = Ok r'
    /\ r' <= r.
Proof.
  intros Hl Hin Hlen Hf.
  assert (Hl' : lines' <> []).
  { destruct lines as [|a l]; [congruence|]. intros ->.
    exact (Hin a (or_introl eq_refl)). }
  destruct (solver_spec fuel lines mw mh font_name Hl Hf)
    as (k & Hk & Hn & Hall & R).
  destruct (solver_spec fuel lines' mw mh font_name Hl' Hf)
    as (k' & Hk' & Hn' & Hall' & R').
  do 2 eexists. split; [exact R|]. split; [exact R'|].
  assert (k' <= k); [|lia].
  apply (first_overflow_le (fits lines' mw mh font_name)
                           (fits lines mw mh font_name)); auto.
  intros j Hj. now apply fits_fewer_lines.
Qed.

(** X4.  The size does not depend on the order of the lines. *)
Theorem solver_order_irrelevant fuel lines lines' mw mh font_name :
  lines <> [] ->
  Permutation lines lines' ->
  (enough_fuel mh <= fuel)%nat ->
  exists r,
    find_max_font_size_for_multiline fuel lines mw mh font_name = Ok r
    /\ find_max_font_size_for_multiline fuel lines' mw mh font_name = Ok r.
Proof.
  intros Hl Hp Hf.
  assert (Hl' : lines' <> []).
  { intros ->. apply Permutation_sym, Permutation_nil in Hp. congruence. }
  assert (Hlen : List.length lines = List.length lines')
    by now apply Permutation_length.
  assert (Hin : incl lines lines')
    by (intros a; now apply Permutation_in).
  assert (Hin' : incl lines' lines)
    by (intros a; apply Permutation_in; now apply Permutation_sym).
  destruct (solver_spec fuel lines mw mh font_name Hl Hf)
    as (k & Hk & Hn & Hall & R).
  destruct (solver_spec fuel lines' mw mh font_name Hl' Hf)
    as (k' & Hk' & Hn' & Hall' & R').
  assert (k' <= k).
  { apply (first_overflow_le (fits lines' mw mh font_name)
                             (fits lines mw mh font_name)); auto.
    intros j Hj. apply fits_fewer_lines; auto. lia. }
  assert (k <= k').
  { apply (first_overflow_le (fits lines mw mh font_name)
                             (fits lines' mw mh font_name)); auto.
    intros j Hj. apply fits_fewer_lines; auto. lia. }
  replace k' with k in R' by lia. eauto.
Qed.

(** * Further properties of the composer *)

Lemma enumerate_in {A} (l : list A) : forall start i a,
  In (i, a) (enumerate start l) -> In a l /\ start <= i < start + len l.
Proof.
  induction l as [|b l IH]; intros start i a; simpl; [tauto|].
  unfold len; simpl List.length. intros [[= <- <-] | H].
  - split; [now left | lia].
  - apply IH in H as [Hin Hi]. unfold len in Hi. split; [now right | lia].
Qed.

(** the final size is between 1 and the raw size when the override does
    not exceed the safety deduction *)
Lemma final_size_range raw ov :
  1 <= raw -> ov <= 2 ->
  1 <= Z.max (raw - FONT_ADJUSTMENT + ov) 1 <= raw.
Proof. unfold FONT_ADJUSTMENT. lia. Qed.

(** X5.  When size 1 fits and the override is at most 2 (the safety
    deduction), the label stays inside the canvas with a margin of 2 on
    every side: each line starts at [x >= 2] and ends at most at
    [width - 2], its baseline is at [y >= 2] and [y + size] is at most
    [height - 2]. *)
Theorem composer_within_margins fuel text font_name w h ov c :
  split text <> [] ->
  fits (split text) w h font_name 1 ->
  ov <= 2 ->
  (enough_fuel h <= fuel)%nat ->
  exists fs draws,
    draw_label fuel text font_name w h ov c
    = (c ++ SetFont font_name fs :: draws, Ok tt)
    /\ forall x y line,
         In (DrawString x y line) draws ->
         (2 <= x
          /\ x + stringWidth line font_name fs <= w - 2
          /\ 2 <= y
          /\ y + inject_Z fs <= h - 2)%Q.
Proof.
  intros Hl H1 Hov Hf.
  destruct (solver_spec fuel _ w h font_name Hl Hf)
    as (k & Hk & Hn & Hall & R).
  assert (Hk2 : 2 <= k).
  { destruct (Z.eq_dec k 1) as [-> | ?]; [contradiction | lia]. }
  replace (Z.max (k - 1) 1) with (k - 1) in R by lia.
  pose proof (final_size_range (k - 1) ov ltac:(lia) Hov) as Hfs.
  do 2 eexists. split; [apply (draw_label_run _ _ _ _ _ _ _ _ R)|].
  set (fs := Z.max (k - 1 - FONT_ADJUSTMENT + ov) 1) in *.
  destruct (Hall fs ltac:(lia)) as (m & Em & Hm & Hh).
  intros x y line Hin.
  apply in_map_iff in Hin as ([i line'] & Heq & Hin).
  injection Heq as <- <- <-.
  apply enumerate_in in Hin as [Hline Hi].
  assert (Hlw : (stringWidth line' font_name fs <= m)%Q).
  { apply (py_max_upper _ _ Em), in_map_iff. eauto. }
  unfold total_height in Hh.
  set (n := len (split text)) in *.
  assert (Ha : (0 <= inject_Z ((n - i - 1) * (fs + 2)))%Q).
  { change 0%Q with (inject_Z 0). rewrite <- Zle_Qle.
    apply Z.mul_nonneg_nonneg; lia. }
  assert (Hb : (inject_Z ((n - i - 1) * (fs + 2)) + inject_Z fs
                <= inject_Z (n * fs + (n - 1) * 2))%Q).
  { rewrite <- inject_Z_plus, <- Zle_Qle.
    assert ((n - i - 1) * (fs + 2) <= (n - 1) * (fs + 2))
      by (apply Z.mul_le_mono_nonneg_r; lia).
    lia. }
  unfold Qdiv. change (/ 2)%Q with (1 # 2)%Q.
  repeat split; lra.
Qed.





(** * Further properties of the batch driver *)

Lemma label_calls_shape fuel text font_name w h ov :
  split text <> [] -> (enough_fuel h <= fuel)%nat ->
  exists fs draws,
    label_calls fuel text font_name w h ov = SetFont font_name fs :: draws
    /\ 1 <= fs
    /\ drawn_texts draws = split text
    /\ forall o, In o draws -> exists x y t, o = DrawString x y t.
Proof.
  intros Hl Hf.
  destruct (solver_ok fuel _ w h font_name Hl Hf) as (raw & E & _).
  unfold label_calls. rewrite (draw_label_run _ _ _ _ _ _ _ _ E). simpl.
  do 2 eexists. split; [reflexivity|]. split; [lia|]. split.
  - apply (drawn_texts_enumerate (fun i line => (_, _))).
  - intros o Ho. apply in_map_iff in Ho as ([i line] & <- & _). eauto.
Qed.

Lemma pages_of_create_pdf fuel data_list font_name w h ov :
  (enough_fuel h <= fuel)%nat ->
  pages (flat_map (fun v => label_calls fuel (strip (str v)) font_name w h ov
                            ++ [ShowPage])
                  (filter kept data_list) ++ [Save])
  = map (fun v => label_calls fuel (strip (str v)) font_name w h ov)
        (filter kept data_list).
Proof.
  intros Hf. apply pages_of_labels.
  intros v Hv. apply filter_In in Hv as [_ Hk].
  apply (label_calls_ok fuel _ font_name w h ov (kept_split v Hk) Hf).
Qed.

(** X8.  No page of the document is empty: every page is one [setFont]
    call with the font asked for and a size of at least 1, followed by
    one or more [drawString] calls and nothing else. *)
Theorem driver_page_shape fuel data_list font_name w h ov :
  (enough_fuel h <= fuel)%nat ->
  exists buf,
    create_pdf fuel data_list font_name w h ov = Ok buf
    /\ forall page,
         In page (pages buf) ->
         exists fs draws,
           page = SetFont font_name fs :: draws
           /\ 1 <= fs
           /\ draws <> []
           /\ forall o, In o draws -> exists x y t, o = DrawString x y t.
Proof.
  intros Hf. eexists. split; [apply create_pdf_run, Hf|].
  rewrite pages_of_create_pdf by assumption.
  intros page Hp. apply in_map_iff in Hp as (v & <- & Hv).
  apply filter_In in Hv as [_ Hk]. apply kept_split in Hk.
  destruct (label_calls_shape fuel _ font_name w h ov Hk Hf)
    as (fs & draws & E & Hfs & Ht & Hd).
  exists fs, draws. repeat split; auto.
  intros ->. simpl in Ht. congruence.
Qed.

(** X9.  The document is its pages, each closed by one [showPage], and
    then one [save]: nothing is drawn after the last [showPage] and
    nothing follows [save]. *)
Theorem driver_document_shape fuel data_list font_name w h ov :
  (enough_fuel h <= fuel)%nat ->
  exists buf,
    create_pdf fuel data_list font_name w h ov = Ok buf
    /\ buf = flat_map (fun page => page ++ [ShowPage]) (pages buf) ++ [Save]
    /\ forall page, In page (pages buf) ->
                    ~ In ShowPage page /\ ~ In Save page.
Proof.
  intros Hf. eexists. split; [apply create_pdf_run, Hf|].
  rewrite pages_of_create_pdf by assumption. split.
  - f_equal. rewrite !flat_map_concat_map, map_map. reflexivity.
  - intros page Hp. apply in_map_iff in Hp as (v & <- & Hv).
    apply filter_In in Hv as [_ Hk]. apply kept_split in Hk.
    destruct (label_calls_shape fuel _ font_name w h ov Hk Hf)
      as (fs & draws & -> & _ & _ & Hd).
    split; intros [H | H]; try discriminate;
      destruct (Hd _ H) as (x & y & t & Ho); discriminate.
Qed.

Lemma for_each_noop {A} (body : A -> M unit) (l : list A) :
  (forall a, In a l -> forall c, body a c = (c, Ok tt)) ->
  forall c, for_each l body c = (c, Ok tt).
Proof.
  induction l as [|a l IH]; intros Hb c; simpl; [reflexivity|].
  unfold bind. rewrite (Hb a (or_introl eq_refl)).
  apply IH. intros b Hin. apply Hb. now right.
Qed.

Lemma create_pdf_none_kept fuel data_list font_name w h ov :
  (forall v, In v data_list -> kept v = false) ->
  create_pdf fuel data_list font_name w h ov = Ok [Save].
Proof.
  intros Hs. unfold create_pdf, create_pdf_body.
  erewrite bind_ok.
  2: { apply for_each_noop. intros v Hv c. cbv beta zeta.
       specialize (Hs v Hv). unfold kept in Hs. apply negb_false_iff in Hs.
       now rewrite Hs. }
  reflexivity.
Qed.

(** X10.  When every entry is skipped (blank, or the missing-value
    token), and so for an empty list, the document has no page: the only
    call is [save].  The solver is never run, so no fuel is needed. *)
Theorem driver_nothing_kept fuel data_list font_name w h ov :
  (forall v, In v data_list ->
             all_space (str v) = true \/ lower (strip (str v)) = "nan") ->
  create_pdf fuel data_list font_name w h ov = Ok [Save].
Proof.
  intros Hs. apply create_pdf_none_kept. intros v Hv.
  unfold kept. apply negb_false_iff, skipped_iff, Hs, Hv.
Qed.

(** X11.  The pages of a batch are the pages of its first part followed
    by the pages of the rest: a page does not depend on the entries
    before or after it. *)
Theorem driver_pages_append fuel l1 l2 font_name w h ov :
  (enough_fuel h <= fuel)%nat ->
  exists buf buf1 buf2,
    create_pdf fuel (l1 ++ l2) font_name w h ov = Ok buf
    /\ create_pdf fuel l1 font_name w h ov = Ok buf1
    /\ create_pdf fuel l2 font_name w h ov = Ok buf2
    /\ pages buf = pages buf1 ++ pages buf2.
Proof.
  intros Hf. do 3 eexists.
  split; [apply create_pdf_run, Hf|].
  split; [apply create_pdf_run, Hf|].
  split; [apply create_pdf_run, Hf|].
  rewrite !pages_of_create_pdf by assumption.
  now rewrite filter_app, map_app.
Qed.

(** * From the cells of the sheet to the document *)

Lemma rstrip_cons_nonempty (c d : ascii) (x r : string) :
  rstrip x = String d r -> rstrip (String c x) = String c (String d r).
Proof. intros E. simpl. now rewrite E. Qed.

Lemma rstrip_idempotent (s : string) : rstrip (rstrip s) = rstrip s.
Proof.
  induction s as [|c s IH]; [reflexivity|].
  destruct (rstrip s) as [|d r] eqn:E.
  - simpl. rewrite E.
    destruct (is_space c) eqn:Hc; simpl; [reflexivity | now rewrite Hc].
  - rewrite (rstrip_cons_nonempty c d s r E).
    now apply rstrip_cons_nonempty.
Qed.

Lemma strip_idempotent (s : string) : strip (strip s) = strip s.
Proof.
  destruct (strip_head s) as [E | (c & r & E & Hc)].
  - rewrite E. reflexivity.
  - unfold strip at 1. rewrite E. simpl lstrip. rewrite Hc.
    rewrite <- E. unfold strip. apply rstrip_idempotent.
Qed.

Lemma filter_filter {A} (f g : A -> bool) (l : list A) :
  filter f (filter g l) = filter (fun a => g a && f a) l.
Proof.
  induction l as [|a l IH]; simpl; [reflexivity|].
  destruct (g a); simpl; [destruct (f a)|]; now rewrite IH.
Qed.

Lemma filter_of_map {A B} (f : B -> bool) (g : A -> B) (l : list A) :
  filter f (map g l) = map g (filter (fun a => f (g a)) l).
Proof.
  induction l as [|a l IH]; simpl; [reflexivity|].
  destruct (f (g a)); simpl; now rewrite IH.
Qed.

Lemma existsb_eqb_app (k : string) (keys more : list string) :
  existsb (String.eqb k) (keys ++ more)
  = existsb (String.eqb k) keys || existsb (String.eqb k) more.
Proof. apply existsb_app. Qed.

(** the dict built from [keys] and then [l]: the keys, then the keys
    of [l] on their own that are not among [keys] *)
Lemma dict_fromkeys_from_spec (l : list string) : forall keys,
  dict_fromkeys_from keys l
  = keys ++ filter (fun y => negb (existsb (String.eqb y) keys))
                   (dict_fromkeys l).
Proof.
  unfold dict_fromkeys.
  induction l as [|k l IH]; intros keys; simpl.
  - now rewrite app_nil_r.
  - rewrite (IH [k]). simpl.
    destruct (existsb (String.eqb k) keys) eqn:Ek; simpl.
    + rewrite IH, filter_filter. f_equal. apply filter_ext.
      intros y. simpl. rewrite orb_false_r.
      destruct (String.eqb y k) eqn:Ey; [|reflexivity].
      apply String.eqb_eq in Ey. subst y. now rewrite Ek.
    + rewrite IH, <- app_assoc, filter_filter. simpl. do 2 f_equal.
      apply filter_ext. intros y. rewrite existsb_eqb_app. simpl.
      rewrite orb_false_r, negb_orb. apply andb_comm.
Qed.

Lemma dict_fromkeys_cons (x : string) (l : list string) :
  dict_fromkeys (x :: l)
  = x :: filter (fun y => negb (String.eqb y x)) (dict_fromkeys l).
Proof.
  unfold dict_fromkeys at 1. simpl. rewrite dict_fromkeys_from_spec.
  simpl. f_equal. apply filter_ext. intros y. now rewrite orb_false_r.
Qed.

Lemma dict_fromkeys_in (l : list string) (y : string) :
  In y (dict_fromkeys l) <-> In y l.
Proof.
  induction l as [|x l IH]; [reflexivity|].
  rewrite dict_fromkeys_cons. simpl. rewrite filter_In, IH, negb_true_iff.
  split.
  - intros [H | [H _]]; [left | right]; assumption.
  - intros [H | H]; [now left|].
    destruct (String.eqb y x) eqn:E; [|right; now split].
    left. symmetry. now apply String.eqb_eq.
Qed.

Lemma dict_fromkeys_nodup (l : list string) : NoDup (dict_fromkeys l).
Proof.
  induction l as [|x l IH]; [constructor|].
  rewrite dict_fromkeys_cons. constructor.
  - rewrite filter_In, String.eqb_refl. intros [_ H]. discriminate.
  - now apply NoDup_filter.
Qed.

(** X12.  [list(dict.fromkeys(l))] has no duplicates and the same
    elements as [l], in the order of their first occurrences: the head of
    [l] comes first, and the rest is what the tail gives, less the
    head. *)
Theorem dict_fromkeys_first_occurrences (l : list string) :
  NoDup (dict_fromkeys l)
  /\ (forall y, In y (dict_fromkeys l) <-> In y l)
  /\ (forall x l', l = x :: l' ->
        dict_fromkeys l
        = x :: filter (fun y => negb (String.eqb y x)) (dict_fromkeys l')).
Proof.
  split; [apply dict_fromkeys_nodup|].
  split; [intros y; apply dict_fromkeys_in|].
  intros x l' ->. apply dict_fromkeys_cons.
Qed.

Lemma dict_fromkeys_id (l : list string) : NoDup l -> dict_fromkeys l = l.
Proof.
  induction 1 as [|x l Hx Hn IH]; [reflexivity|].
  rewrite dict_fromkeys_cons, IH. f_equal.
  apply forallb_filter_id, forallb_forall. intros y Hy.
  apply negb_true_iff, String.eqb_neq. intros ->. contradiction.
Qed.

(** X13.  Removing duplicates twice is removing them once, and a list
    without duplicates is left as it is. *)
Theorem dict_fromkeys_idempotent (l : list string) :
  dict_fromkeys (dict_fromkeys l) = dict_fromkeys l
  /\ (NoDup l -> dict_fromkeys l = l).
Proof.
  split; [apply dict_fromkeys_id, dict_fromkeys_nodup | apply dict_fromkeys_id].
Qed.

Lemma dict_fromkeys_length (l : list string) :
  (List.length (dict_fromkeys l) <= List.length l)%nat.
Proof.
  induction l as [|x l IH]; [apply Nat.le_refl|].
  rewrite dict_fromkeys_cons. simpl.
  pose proof (filter_length_le (fun y => negb (String.eqb y x))
                               (dict_fromkeys l)). lia.
Qed.

Lemma cell_values_in (remove_duplicates : bool) (cells : list value) s :
  In s (cell_values remove_duplicates cells)
  <-> exists val,
        In val cells /\ notnull val = true
        /\ strip (str val) <> "" /\ s = strip (str val).
Proof.
  unfold cell_values.
  assert (H : In s (map (fun val => strip (str val))
                        (filter (fun val =>
                                   notnull val
                                   && negb (String.eqb (strip (str val)) ""))
                                cells))
              <-> exists val,
                    In val cells /\ notnull val = true
                    /\ strip (str val) <> "" /\ s = strip (str val)).
  { rewrite in_map_iff. split.
    - intros (val & <- & Hin). apply filter_In in Hin as [Hin Hc].
      apply andb_true_iff in Hc as [Hn Hb].
      apply negb_true_iff, String.eqb_neq in Hb. eauto.
    - intros (val & Hin & Hn & Hb & ->). exists val. split; [reflexivity|].
      apply filter_In. split; [assumption|].
      rewrite Hn. simpl. now apply negb_true_iff, String.eqb_neq. }
  destruct remove_duplicates; [rewrite dict_fromkeys_in|]; exact H.
Qed.

Lemma cell_values_stripped (remove_duplicates : bool) (cells : list value) s :
  In s (cell_values remove_duplicates cells) -> s <> "" /\ strip s = s.
Proof.
  intros Hs. apply cell_values_in in Hs as (val & _ & _ & Hb & ->).
  split; [assumption | apply strip_idempotent].
Qed.

(** X14.  The cleaned values are the stripped texts of the cells that
    are not null and not blank, and nothing else.  Each one is non-empty
    and is already stripped, so the [strip] of [create_pdf] leaves it as
    it is.  There are at most as many as cells and, when duplicates are
    removed, no two are equal. *)
Theorem cell_values_clean (remove_duplicates : bool) (cells : list value) :
  (forall s,
     In s (cell_values remove_duplicates cells)
     <-> exists val,
           In val cells /\ notnull val = true
           /\ all_space (str val) = false /\ s = strip (str val))
  /\ (forall s, In s (cell_values remove_duplicates cells) ->
                s <> "" /\ strip s = s)
  /\ (List.length (cell_values remove_duplicates cells)
      <= List.length cells)%nat
  /\ (remove_duplicates = true -> NoDup (cell_values remove_duplicates cells)).
Proof.
  split; [|split; [|split]].
  - intros s. rewrite cell_values_in. split.
    + intros (val & Hin & Hn & Hb & ->). exists val. repeat split; auto.
      rewrite strip_empty in Hb. now destruct (all_space (str val)).
    + intros (val & Hin & Hn & Hb & ->). exists val. repeat split; auto.
      rewrite strip_empty. congruence.
  - apply cell_values_stripped.
  - unfold cell_values.
    assert (H : (List.length
                   (map (fun val => strip (str val))
                        (filter (fun val =>
                                   notnull val
                                   && negb (String.eqb (strip (str val)) ""))
                                cells))
                 <= List.length cells)%nat)
      by (rewrite length_map; apply filter_length_le).
    destruct remove_duplicates; [|exact H].
    eapply Nat.le_trans; [apply dict_fromkeys_length | exact H].
  - intros ->. apply dict_fromkeys_nodup.
Qed.

(** a cleaned value is kept by [create_pdf] unless it lowers to "nan" *)
Lemma kept_of_str (s : string) :
  s <> "" -> strip s = s ->
  kept (of_str s) = negb (String.eqb (lower s) "nan")
  /\ strip (str (of_str s)) = s.
Proof.
  intros Hne Hs. unfold kept, skipped. rewrite str_of_str, Hs.
  split; [|reflexivity]. destruct s; [congruence | reflexivity].
Qed.


(** X16.  When some cell is neither null nor blank, the document offered
    for download has one page for each cleaned value that does not lower
    to "nan", in order, and the page shows the words of the value. *)
Theorem generate_pdf_pages fuel remove_duplicates cells selected_font
        page_width page_height font_override :
  cell_values remove_duplicates cells <> [] ->
  (enough_fuel page_height <= fuel)%nat ->
  exists pdf_buffer,
    generate_pdf fuel remove_duplicates cells selected_font page_width
                 page_height font_override = Ok (Download pdf_buffer)
    /\ map drawn_texts (pages pdf_buffer)
       = map split
             (filter (fun s => negb (String.eqb (lower s) "nan"))
                     (cell_values remove_duplicates cells)).
Proof.
  intros Hne Hf. unfold generate_pdf.
  pose proof (cell_values_stripped remove_duplicates cells) as Hclean.
  destruct (cell_values remove_duplicates cells) as [|s l] eqn:E;
    [congruence|].
  destruct (create_pdf_pages fuel (map of_str (s :: l)) selected_font
              page_width page_height font_override Hf) as (buf & -> & Hp).
  exists buf. split; [reflexivity|].
  rewrite Hp, filter_of_map, map_map.
  rewrite (filter_ext_in (fun a => kept (of_str a))
                         (fun a => negb (String.eqb (lower a) "nan"))).
  - apply map_ext_in. intros a Ha. apply filter_In in Ha as [Ha _].
    destruct (Hclean a Ha) as [H1 H2].
    now rewrite (proj2 (kept_of_str a H1 H2)).
  - intros a Ha. destruct (Hclean a Ha) as [H1 H2].
    exact (proj1 (kept_of_str a H1 H2)).
Qed.

(** X17.  When every cleaned value lowers to "nan" and there is at least
    one, no warning is given: a document without a page is offered for
    download. *)
Theorem generate_pdf_only_nan fuel remove_duplicates cells selected_font
        page_width page_height font_override :
  cell_values remove_duplicates cells <> [] ->
  (forall s, In s (cell_values remove_duplicates cells) -> lower s = "nan") ->
  generate_pdf fuel remove_duplicates cells selected_font page_width
               page_height font_override = Ok (Download [Save]).
Proof.
  intros Hne Hnan. unfold generate_pdf.
  pose proof (cell_values_stripped remove_duplicates cells) as Hclean.
  destruct (cell_values remove_duplicates cells) as [|s l] eqn:E;
    [congruence|].
  rewrite create_pdf_none_kept; [reflexivity|].
  intros v Hv. apply in_map_iff in Hv as (a & <- & Ha).
  destruct (Hclean a Ha) as [H1 H2].
  rewrite (proj1 (kept_of_str a H1 H2)), (Hnan a Ha). reflexivity.
Qed.

(** * Whitespace around the words *)

Lemma split_from_all_space (x word : string) :
  all_space x = true ->
  split_from word x = match word with EmptyString => [] | _ => [word] end.
Proof.
  intros Hx. pose proof (proj2 (split_empty_iff x) Hx) as He.
  unfold split in He. destruct word as [|a word]; [exact He|].
  rewrite split_from_boundary, He; [reflexivity | discriminate |].
  destruct x; simpl in *; [reflexivity|].
  now apply andb_true_iff in Hx as [Hc _].
Qed.

Lemma split_from_cons (word : string) (c : ascii) (s : string) :
  split_from word (String c s)
  = if is_space c then
      match word with
      | EmptyString => split_from EmptyString s
      | _ => word :: split_from EmptyString s
      end
    else split_from (String.append word (String c EmptyString)) s.
Proof. reflexivity. Qed.

Lemma split_from_rstrip (x : string) : forall word,
  split_from word (rstrip x) = split_from word x.
Proof.
  induction x as [|c x IH]; intros word; [reflexivity|].
  destruct (rstrip x) as [|d r] eqn:E.
  - pose proof (proj1 (rstrip_empty x) E) as Hx.
    simpl rstrip. rewrite E. simpl split_from at 2.
    destruct (is_space c) eqn:Hc.
    + rewrite !(split_from_all_space x _ Hx).
      destruct word; reflexivity.
    + rewrite (split_from_all_space x _ Hx). simpl. now rewrite Hc.
  - rewrite (rstrip_cons_nonempty c d x r E).
    rewrite (split_from_cons word c (String d r)), (split_from_cons word c x).
    destruct (is_space c); [destruct word|]; now rewrite IH.
Qed.

Lemma split_lstrip (s : string) : split (lstrip s) = split s.
Proof.
  unfold split. induction s as [|c s IH]; simpl; [reflexivity|].
  destruct (is_space c) eqn:Hc; [exact IH|]. simpl. now rewrite Hc.
Qed.

Lemma split_strip (s : string) : split (strip s) = split s.
Proof.
  unfold strip, split. rewrite split_from_rstrip. apply split_lstrip.
Qed.

(** X18.  Stripping a value does not change its words: each page shows
    the words of the entry as it was given, whatever whitespace it has in
    front, behind or between the words. *)
Theorem driver_pages_show_words fuel data_list font_name w h ov :
  (enough_fuel h <= fuel)%nat ->
  exists buf,
    create_pdf fuel data_list font_name w h ov = Ok buf
    /\ map drawn_texts (pages buf)
       = map (fun v => split (str v)) (filter kept data_list).
Proof.
  intros Hf.
  destruct (create_pdf_pages fuel data_list font_name w h ov Hf)
    as (buf & E & Hp).
  exists buf. split; [exact E|]. rewrite Hp.
  apply map_ext. intros v. apply split_strip.
Qed.

End LabelGen.

(** * The development at concrete inputs

    The metrics function is the test font [mono_width]; the values of a
    batch are strings, with [str] the identity. *)

Lemma mono_width_nondecreasing : nondecreasing_in_size mono_width.
Proof.
  intros line font_name s1 s2 H1 H2. unfold mono_width.
  rewrite <- Zle_Qle. apply Z.mul_le_mono_nonneg_l; lia.
Qed.

(** "HELLO" on a 200 x 100 canvas: the width is the binding constraint,
    [5 * 39 <= 196 < 5 * 40]. *)
Example hello_200_100 :
  find_max_font_size_for_multiline mono_width 101 ["HELLO"] 200 100
                                   "Helvetica" = Ok 39.
Proof. vm_compute. reflexivity. Qed.

(** a batch of five values, two of them blank: three pages, in order *)
Example batch_of_five :
  option_map (fun buf => map drawn_texts (pages buf))
    (match create_pdf mono_width string (fun s => s) 31
                      ["A"; "  "; "B C"; ""; "D"] "Helvetica" 50 30 0 with
     | Ok buf => Some buf
     | _ => None
     end)
  = Some [["A"]; ["B"; "C"]; ["D"]].
Proof. vm_compute. reflexivity. Qed.

(** the cell texts "NaN", "NAN", "nan" are all taken for the
    missing-value token; "Nancy" and "na" are not *)
Example nan_tokens :
  map (fun s => skipped (PyStr.strip s))
      ["NaN"; "NAN"; "nan"; " nAn "; "Nancy"; "na"]
  = [true; true; true; true; false; false].
Proof. vm_compute. reflexivity. Qed.

(** an override of +5 on two lines and a canvas 10 units high: the block
    is 12 units high and [start_y] is -1 *)
Example start_y_negative :
  draw_label mono_width 11 "A B" "Helvetica" 100 10 5 []
  = ([SetFont "Helvetica" 5;
      DrawString ((100 - 5) / 2)%Q ((10 - 12) / 2 + 7)%Q "A";
      DrawString ((100 - 5) / 2)%Q ((10 - 12) / 2 + 0)%Q "B"],
     Ok tt).
Proof. vm_compute. reflexivity. Qed.

Lemma solver_returns_largest_fit_witness :
  ["HELLO"] <> []
  /\ nondecreasing_in_size mono_width
  /\ fits mono_width ["HELLO"] 200 100 "Helvetica" 1
  /\ (enough_fuel 100 <= 101)%nat
  /\ exists r,
       find_max_font_size_for_multiline mono_width 101 ["HELLO"] 200 100
                                        "Helvetica" = Ok r
       /\ 1 <= r
       /\ fits mono_width ["HELLO"] 200 100 "Helvetica" r
       /\ forall s, fits mono_width ["HELLO"] 200 100 "Helvetica" s -> s <= r.
Proof.
  assert (H1 : ["HELLO"] <> []) by discriminate.
  assert (H2 : fits mono_width ["HELLO"] 200 100 "Helvetica" 1).
  { eexists. split; [reflexivity|].
    split; apply Qle_bool_iff; reflexivity. }
  assert (H3 : (enough_fuel 100 <= 101)%nat) by (vm_compute; lia).
  repeat split; try assumption; try apply mono_width_nondecreasing.
  exact (solver_returns_largest_fit mono_width 101 ["HELLO"] 200 100
           "Helvetica" H1 mono_width_nondecreasing H2 H3).
Defined.

Lemma composer_final_size_witness :
  PyStr.split "A" <> []
  /\ (enough_fuel 1 <= 2)%nat
  /\ exists raw draws,
       find_max_font_size_for_multiline mono_width 2 (PyStr.split "A") 1 1
                                        "Helvetica" = Ok raw
       /\ draw_label mono_width 2 "A" "Helvetica" 1 1 (-5) []
          = ([] ++ SetFont "Helvetica" (Z.max (raw - 2 + -5) 1) :: draws,
             Ok tt)
       /\ 1 <= Z.max (raw - 2 + -5) 1
       /\ forall o, In o draws -> exists x y t, o = DrawString x y t.
Proof.
  assert (H1 : PyStr.split "A" <> []) by discriminate.
  assert (H2 : (enough_fuel 1 <= 2)%nat) by (vm_compute; lia).
  repeat split; try assumption.
  exact (composer_final_size mono_width 2 "A" "Helvetica" 1 1 (-5) [] H1 H2).
Defined.



Lemma driver_one_page_per_kept_entry_witness :
  (enough_fuel 30 <= 31)%nat
  /\ exists buf,
       create_pdf mono_width string (fun s => s) 31
                  ["A"; "  "; "B C"; ""; "D"] "Helvetica" 50 30 0 = Ok buf
       /\ List.length (pages buf) = 3%nat.
Proof.
  assert (H1 : (enough_fuel 30 <= 31)%nat) by (vm_compute; lia).
  split; [exact H1|].
  destruct (driver_one_page_per_kept_entry mono_width string (fun s => s) 31
              ["A"; "  "; "B C"; ""; "D"] "Helvetica" 50 30 0 H1)
    as (buf & E & _ & Hlen & _).
  exists buf. split; [exact E | exact Hlen].
Defined.

Lemma composer_empty_line_set_witness :
  PyStr.split "  " = []
  /\ PyStr.all_space "  " = true
  /\ draw_label mono_width 1 "  " "Helvetica" 50 30 0 []
     = ([], Raise ValueError).
Proof.
  assert (H1 : PyStr.split "  " = []) by reflexivity.
  split; [exact H1|].
  destruct (composer_empty_line_set mono_width 0 "  " "Helvetica" 50 30 0 []
              H1) as (Ha & Hd & _).
  split; [exact Ha | exact Hd].
Defined.

(** C6 as the spec has it fails: on a whitespace-only text [draw_label]
    never returns normally. *)
Lemma composer_empty_line_set_counterexample :
  PyStr.split "  " = []
  /\ ~ exists fuel c,
         draw_label mono_width fuel "  " "Helvetica" 50 30 0 [] = (c, Ok tt).
Proof.
  split; [reflexivity|].
  intros (fuel & c & H). destruct fuel; discriminate H.
Qed.

Lemma solver_at_least_one_witness :
  ["HELLO"] <> []
  /\ (enough_fuel 1 <= 2)%nat
  /\ exists r,
       find_max_font_size_for_multiline mono_width 2 ["HELLO"] 1 1
                                        "Helvetica" = Ok r
       /\ 1 <= r
       /\ (~ fits mono_width ["HELLO"] 1 1 "Helvetica" 1 -> r = 1).
Proof.
  assert (H1 : ["HELLO"] <> []) by discriminate.
  assert (H2 : (enough_fuel 1 <= 2)%nat) by (vm_compute; lia).
  repeat (split; [assumption|]).
  exact (proj1 (solver_at_least_one mono_width 2 ["HELLO"] 1 1 "Helvetica"
                  H1 H2)).
Defined.

Lemma solver_terminates_witness :
  ["FOO"; "BAR"] <> []
  /\ (enough_fuel 30 <= 31)%nat
  /\ exists k,
       1 <= k <= Z.max 1 (Qfloor 30 - 3)
       /\ ~ fits mono_width ["FOO"; "BAR"] 50 30 "Helvetica" k
       /\ find_max_font_size_for_multiline mono_width 31 ["FOO"; "BAR"] 50 30
                                           "Helvetica"
          = Ok (Z.max (k - 1) 1).
Proof.
  assert (H1 : ["FOO"; "BAR"] <> []) by discriminate.
  assert (H2 : (enough_fuel 30 <= 31)%nat) by (vm_compute; lia).
  repeat (split; [assumption|]).
  exact (proj2 (solver_terminates mono_width 31 ["FOO"; "BAR"] 50 30
                  "Helvetica" H1 H2)).
Defined.

Lemma size_monotonicity_witness :
  ["FOO"; "BAR"] <> []
  /\ 3 < 7
  /\ exists m1 m2,
       max_line_width mono_width ["FOO"; "BAR"] "Helvetica" 3 = Ok m1
       /\ max_line_width mono_width ["FOO"; "BAR"] "Helvetica" 7 = Ok m2
       /\ (m1 <= m2)%Q
       /\ total_height ["FOO"; "BAR"] 3 < total_height ["FOO"; "BAR"] 7.
Proof.
  assert (H1 : ["FOO"; "BAR"] <> []) by discriminate.
  assert (H2 : 3 < 7) by lia.
  repeat (split; [assumption|]).
  apply (size_monotonicity mono_width ["FOO"; "BAR"] "Helvetica" 3 7 H1 H2).
  intros line _. apply mono_width_nondecreasing; lia.
Defined.

Lemma driver_skips_nan_witness :
  PyStr.lower (PyStr.strip " NaN ") = "nan"
  /\ create_pdf mono_width string (fun s => s) 31 (["A"] ++ " NaN " :: ["B"])
                "Helvetica" 50 30 0
     = create_pdf mono_width string (fun s => s) 31 (["A"] ++ ["B"])
                  "Helvetica" 50 30 0.
Proof.
  assert (H1 : PyStr.lower (PyStr.strip " NaN ") = "nan") by reflexivity.
  split; [exact H1|].
  exact (proj1 (driver_skips_nan mono_width string (fun s => s) 31 ["A"]
                  " NaN " ["B"] "Helvetica" 50 30 0 H1)).
Defined.

(** * The further properties at concrete inputs *)

Lemma foo_bar_fits_at_1 :
  fits mono_width ["FOO"; "BAR"] 50 30 "Helvetica" 1.
Proof.
  eexists. split; [reflexivity|]. split; apply Qle_bool_iff; reflexivity.
Qed.

Lemma solver_stops_at_first_overflow_witness :
  ["FOO"; "BAR"] <> []
  /\ fits mono_width ["FOO"; "BAR"] 50 30 "Helvetica" 1
  /\ (enough_fuel 30 <= 31)%nat
  /\ exists r,
       find_max_font_size_for_multiline mono_width 31 ["FOO"; "BAR"] 50 30
                                        "Helvetica" = Ok r
       /\ (forall j, 1 <= j <= r ->
                     fits mono_width ["FOO"; "BAR"] 50 30 "Helvetica" j)
       /\ ~ fits mono_width ["FOO"; "BAR"] 50 30 "Helvetica" (r + 1).
Proof.
  assert (H1 : ["FOO"; "BAR"] <> []) by discriminate.
  assert (H3 : (enough_fuel 30 <= 31)%nat) by (vm_compute; lia).
  repeat (split; [first [assumption | exact foo_bar_fits_at_1]|]).
  exact (solver_stops_at_first_overflow mono_width 31 ["FOO"; "BAR"] 50 30
           "Helvetica" H1 foo_bar_fits_at_1 H3).
Defined.

Lemma solver_monotone_in_canvas_witness :
  ["FOO"; "BAR"] <> []
  /\ (50 <= 60)%Q /\ (30 <= 40)%Q
  /\ (enough_fuel 40 <= 41)%nat
  /\ exists r r',
       find_max_font_size_for_multiline mono_width 41 ["FOO"; "BAR"] 50 30
                                        "Helvetica" = Ok r
       /\ find_max_font_size_for_multiline mono_width 41 ["FOO"; "BAR"] 60 40
                                           "Helvetica" = Ok r'
       /\ r <= r'.
Proof.
  assert (H1 : ["FOO"; "BAR"] <> []) by discriminate.
  assert (H2 : (50 <= 60)%Q) by (apply Qle_bool_iff; reflexivity).
  assert (H3 : (30 <= 40)%Q) by (apply Qle_bool_iff; reflexivity).
  assert (H4 : (enough_fuel 40 <= 41)%nat) by (vm_compute; lia).
  repeat (split; [assumption|]).
  exact (solver_monotone_in_canvas mono_width 41 ["FOO"; "BAR"] 50 30 60 40
           "Helvetica" H1 H2 H3 H4).
Defined.

Lemma solver_antitone_in_lines_witness :
  ["FOO"] <> []
  /\ incl ["FOO"] ["FOO"; "BARBAZ"]
  /\ (List.length ["FOO"] <= List.length ["FOO"; "BARBAZ"])%nat
  /\ (enough_fuel 30 <= 31)%nat
  /\ exists r r',
       find_max_font_size_for_multiline mono_width 31 ["FOO"] 50 30
                                        "Helvetica" = Ok r
       /\ find_max_font_size_for_multiline mono_width 31 ["FOO"; "BARBAZ"]
                                           50 30 "Helvetica" = Ok r'
       /\ r' <= r.
Proof.
  assert (H1 : ["FOO"] <> []) by discriminate.
  assert (H2 : incl ["FOO"] ["FOO"; "BARBAZ"])
    by (intros a [<- | []]; now left).
  assert (H3 : (List.length ["FOO"] <= List.length ["FOO"; "BARBAZ"])%nat)
    by (simpl; lia).
  assert (H4 : (enough_fuel 30 <= 31)%nat) by (vm_compute; lia).
  repeat (split; [assumption|]).
  exact (solver_antitone_in_lines mono_width 31 ["FOO"] ["FOO"; "BARBAZ"]
           50 30 "Helvetica" H1 H2 H3 H4).
Defined.

Lemma solver_order_irrelevant_witness :
  ["FOO"; "BARBAZ"] <> []
  /\ Permutation ["FOO"; "BARBAZ"] ["BARBAZ"; "FOO"]
  /\ (enough_fuel 30 <= 31)%nat
  /\ exists r,
       find_max_font_size_for_multiline mono_width 31 ["FOO"; "BARBAZ"]
                                        50 30 "Helvetica" = Ok r
       /\ find_max_font_size_for_multiline mono_width 31 ["BARBAZ"; "FOO"]
                                           50 30 "Helvetica" = Ok r.
Proof.
  assert (H1 : ["FOO"; "BARBAZ"] <> []) by discriminate.
  assert (H2 : Permutation ["FOO"; "BARBAZ"] ["BARBAZ"; "FOO"])
    by apply perm_swap.
  assert (H3 : (enough_fuel 30 <= 31)%nat) by (vm_compute; lia).
  repeat (split; [assumption|]).
  exact (solver_order_irrelevant mono_width 31 ["FOO"; "BARBAZ"]
           ["BARBAZ"; "FOO"] 50 30 "Helvetica" H1 H2 H3).
Defined.

Lemma composer_within_margins_witness :
  PyStr.split "FOO BAR" <> []
  /\ fits mono_width (PyStr.split "FOO BAR") 50 30 "Helvetica" 1
  /\ 0 <= 2
  /\ (enough_fuel 30 <= 31)%nat
  /\ exists fs draws,
       draw_label mono_width 31 "FOO BAR" "Helvetica" 50 30 0 []
       = ([] ++ SetFont "Helvetica" fs :: draws, Ok tt)
       /\ forall x y line,
            In (DrawString x y line) draws ->
            (2 <= x
             /\ x + mono_width line "Helvetica" fs <= 50 - 2
             /\ 2 <= y
             /\ y + inject_Z fs <= 30 - 2)%Q.
Proof.
  assert (H1 : PyStr.split "FOO BAR" <> []) by discriminate.
  assert (H3 : 0 <= 2) by lia.
  assert (H4 : (enough_fuel 30 <= 31)%nat) by (vm_compute; lia).
  repeat (split; [first [assumption | exact foo_bar_fits_at_1]|]).
  exact (composer_within_margins mono_width 31 "FOO BAR" "Helvetica" 50 30 0
           [] H1 foo_bar_fits_at_1 H3 H4).
Defined.



Lemma driver_page_shape_witness :
  (enough_fuel 30 <= 31)%nat
  /\ exists buf,
       create_pdf mono_width string (fun s => s) 31
                  ["A"; "  "; "B C"; ""; "D"] "Helvetica" 50 30 0 = Ok buf
       /\ forall page,
            In page (pages buf) ->
            exists fs draws,
              page = SetFont "Helvetica" fs :: draws
              /\ 1 <= fs
              /\ draws <> []
              /\ forall o, In o draws -> exists x y t, o = DrawString x y t.
Proof.
  assert (H1 : (enough_fuel 30 <= 31)%nat) by (vm_compute; lia).
  split; [exact H1|].
  exact (driver_page_shape mono_width string (fun s => s) 31
           ["A"; "  "; "B C"; ""; "D"] "Helvetica" 50 30 0 H1).
Defined.

Lemma driver_document_shape_witness :
  (enough_fuel 30 <= 31)%nat
  /\ exists buf,
       create_pdf mono_width string (fun s => s) 31
                  ["A"; "  "; "B C"; ""; "D"] "Helvetica" 50 30 0 = Ok buf
       /\ buf = flat_map (fun page => page ++ [ShowPage]) (pages buf)
                ++ [Save]
       /\ forall page, In page (pages buf) ->
                       ~ In ShowPage page /\ ~ In Save page.
Proof.
  assert (H1 : (enough_fuel 30 <= 31)%nat) by (vm_compute; lia).
  split; [exact H1|].
  exact (driver_document_shape mono_width string (fun s => s) 31
           ["A"; "  "; "B C"; ""; "D"] "Helvetica" 50 30 0 H1).
Defined.

Lemma driver_nothing_kept_witness :
  (forall v, In v ["  "; "NaN"; ""] ->
             PyStr.all_space v = true
             \/ PyStr.lower (PyStr.strip v) = "nan")
  /\ create_pdf mono_width string (fun s => s) 0 ["  "; "NaN"; ""]
                "Helvetica" 50 30 0 = Ok [Save].
Proof.
  assert (H1 : forall v, In v ["  "; "NaN"; ""] ->
                         PyStr.all_space v = true
                         \/ PyStr.lower (PyStr.strip v) = "nan").
  { intros v [<- | [<- | [<- | []]]];
      [left | right | left]; reflexivity. }
  split; [exact H1|].
  exact (driver_nothing_kept mono_width string (fun s => s) 0
           ["  "; "NaN"; ""] "Helvetica" 50 30 0 H1).
Defined.

Lemma driver_pages_append_witness :
  (enough_fuel 30 <= 31)%nat
  /\ exists buf buf1 buf2,
       create_pdf mono_width string (fun s => s) 31 (["A"; "  "] ++ ["B C"])
                  "Helvetica" 50 30 0 = Ok buf
       /\ create_pdf mono_width string (fun s => s) 31 ["A"; "  "]
                     "Helvetica" 50 30 0 = Ok buf1
       /\ create_pdf mono_width string (fun s => s) 31 ["B C"]
                     "Helvetica" 50 30 0 = Ok buf2
       /\ pages buf = pages buf1 ++ pages buf2.
Proof.
  assert (H1 : (enough_fuel 30 <= 31)%nat) by (vm_compute; lia).
  split; [exact H1|].
  exact (driver_pages_append mono_width string (fun s => s) 31 ["A"; "  "]
           ["B C"] "Helvetica" 50 30 0 H1).
Defined.

Lemma driver_pages_show_words_witness :
  (enough_fuel 30 <= 31)%nat
  /\ exists buf,
       create_pdf mono_width string (fun s => s) 31 ["  A   B "; "  "]
                  "Helvetica" 50 30 0 = Ok buf
       /\ map drawn_texts (pages buf)
          = map (fun v => PyStr.split v)
                (filter (kept string (fun s => s)) ["  A   B "; "  "]).
Proof.
  assert (H1 : (enough_fuel 30 <= 31)%nat) by (vm_compute; lia).
  split; [exact H1|].
  exact (driver_pages_show_words mono_width string (fun s => s) 31
           ["  A   B "; "  "] "Helvetica" 50 30 0 H1).
Defined.

(** a sheet with a null cell, a blank cell, a repeated text and the text
    "NaN": two pages when duplicates are removed *)
Example sheet_pages :
  cell_values (option string) cell_str cell_notnull true
              [Some " A "; None; Some "  "; Some "A"; Some "NaN"; Some "B C"]
  = ["A"; "NaN"; "B C"]
  /\ option_map (fun g => match g with
                          | Download buf => map drawn_texts (pages buf)
                          | Warning _ => []
                          end)
       (match generate_pdf mono_width (option string) cell_str cell_notnull
                           Some 31 true
                           [Some " A "; None; Some "  "; Some "A";
                            Some "NaN"; Some "B C"]
                           "Helvetica" 50 30 0 with
        | Ok g => Some g
        | _ => None
        end)
     = Some [["A"]; ["B"; "C"]].
Proof. split; vm_compute; reflexivity. Qed.

Lemma generate_pdf_pages_witness :
  (forall s, cell_str (Some s) = s)
  /\ cell_values (option string) cell_str cell_notnull true
                 [Some " A "; None; Some "NaN"; Some "A"] <> []
  /\ (enough_fuel 30 <= 31)%nat
  /\ exists pdf_buffer,
       generate_pdf mono_width (option string) cell_str cell_notnull Some
                    31 true [Some " A "; None; Some "NaN"; Some "A"]
                    "Helvetica" 50 30 0 = Ok (Download pdf_buffer)
       /\ map drawn_texts (pages pdf_buffer)
          = map PyStr.split
                (filter (fun s => negb (String.eqb (PyStr.lower s) "nan"))
                        (cell_values (option string) cell_str cell_notnull
                                     true
                                     [Some " A "; None; Some "NaN";
                                      Some "A"])).
Proof.
  assert (H0 : forall s, cell_str (Some s) = s) by reflexivity.
  assert (H1 : cell_values (option string) cell_str cell_notnull true
                           [Some " A "; None; Some "NaN"; Some "A"] <> [])
    by discriminate.
  assert (H2 : (enough_fuel 30 <= 31)%nat) by (vm_compute; lia).
  repeat (split; [assumption|]).
  exact (generate_pdf_pages mono_width (option string) cell_str cell_notnull
           Some H0 31 true [Some " A "; None; Some "NaN"; Some "A"]
           "Helvetica" 50 30 0 H1 H2).
Defined.

Lemma generate_pdf_only_nan_witness :
  (forall s, cell_str (Some s) = s)
  /\ cell_values (option string) cell_str cell_notnull false
                 [Some "NaN"; None; Some " nan "] <> []
  /\ (forall s,
        In s (cell_values (option string) cell_str cell_notnull false
                          [Some "NaN"; None; Some " nan "]) ->
        PyStr.lower s = "nan")
  /\ generate_pdf mono_width (option string) cell_str cell_notnull Some
                  0 false [Some "NaN"; None; Some " nan "]
                  "Helvetica" 50 30 0 = Ok (Download [Save]).
Proof.
  assert (H0 : forall s, cell_str (Some s) = s) by reflexivity.
  assert (H1 : cell_values (option string) cell_str cell_notnull false
                           [Some "NaN"; None; Some " nan "] <> [])
    by discriminate.
  assert (H2 : forall s,
             In s (cell_values (option string) cell_str cell_notnull false
                               [Some "NaN"; None; Some " nan "]) ->
             PyStr.lower s = "nan").
  { intros s [<- | [<- | []]]; reflexivity. }
  repeat (split; [assumption|]).
  exact (generate_pdf_only_nan mono_width (option string) cell_str
           cell_notnull Some H0 0 false [Some "NaN"; None; Some " nan "]
           "Helvetica" 50 30 0 H1 H2).
Defined.
